(** * glQiwiApi.core.session.holder: the lazy session holder

    A shallow embedding of [src/glQiwiApi/core/session/holder.py].

    Python objects with identity (the aiohttp sessions) live in an explicit
    object store, so that the session handed to a caller, the one the holder
    keeps in [self._session] and the one an outside actor closes are the
    same object.  A connector a caller made and passed in the keyword
    arguments is shared by every session built from them; its state is kept
    beside the sessions.  Coroutines are run to completion one after the
    other (the holder has no internal concurrency), so an [async def] is a
    computation in a state-and-exception monad over that store. *)

From Stdlib Require Import ZArith.
From Stdlib.Strings Require Import Byte.
From stdpp Require Import gmap strings list fin_maps.

(** ** Python values, exceptions and the coroutine monad *)

(** Values that may be passed as keyword arguments ([Any] in the source).
    [VConnector c] is a connector object ([aiohttp.BaseConnector]) that the
    caller made; [c] is its identity. *)
Inductive PyVal : Type :=
| VNone
| VBool (b : bool)
| VInt (z : Z)
| VStr (s : string)
| VConnector (c : nat).

(** Python's truth value of an object. *)
Definition truthy (v : PyVal) : bool :=
  match v with
  | VNone => false
  | VBool b => b
  | VInt z => negb (Z.eqb z 0)
  | VStr s => negb (String.eqb s "")
  | VConnector _ => true
  end.

(** A [**kwargs] dictionary. *)
Abbreviation Kwargs := (gmap string PyVal).

(** Addresses of session objects: the identity that Python's [is] compares. *)
Abbreviation loc := nat.

Inductive Exc : Type :=
| AllocationError            (* the transport constructor rejected the kwargs *)
| ReadError                  (* the transport failed while reading a body *)
| AttributeError             (* attribute access on [None] *)
| DanglingSession            (* a reference to no object: not reachable from Python *)
| CallerError (tag : nat).   (* raised by the caller's own code inside a scope *)

Inductive Result (A : Type) : Type :=
| Ok (a : A)
| Raise (e : Exc).
Arguments Ok {A} a.
Arguments Raise {A} e.

(** ** The transport library, as far as the holder uses it *)

Module Transport.

(** What a session's [_connector] attribute refers to: the connector the
    constructor made for this session alone (nothing else refers to it, and
    the session lets go of it in the very call that closes it, so while it
    is attached it is open), or a connector of the caller's, which other
    sessions may share. *)
Inductive ConnectorRef : Type :=
| OwnConnector
| GivenConnector (c : nat).

(** [aiohttp.ClientSession]: its connector ([None] once the session was
    closed), whether it owns the connector, and the keyword arguments it
    was constructed with. *)
Record ClientSession : Type := mkSession {
  _connector : option ConnectorRef;
  _connector_owner : bool;
  init_kwargs : Kwargs
}.

(** [connector.closed], given the caller-made connectors closed so far. *)
Definition connector_closed (cc : list nat) (r : ConnectorRef) : bool :=
  match r with
  | OwnConnector => false
  | GivenConnector c => bool_decide (c ∈ cc)
  end.

(** The property [ClientSession.closed]:
    [self._connector is None or self._connector.closed]. *)
Definition session_closed (cc : list nat) (s : ClientSession) : bool :=
  match _connector s with
  | None => true
  | Some r => connector_closed cc r
  end.

(** The constructor's [connector] argument: the caller's connector when
    one is given, otherwise ([None], or no such keyword) a connector made
    on the spot.  A value that is no connector is among what the
    constructor raises on (see [accepts] below). *)
Definition connector_arg (kwargs : Kwargs) : ConnectorRef :=
  match kwargs !! "connector" with
  | Some (VConnector c) => GivenConnector c
  | _ => OwnConnector
  end.

(** The constructor's [connector_owner] argument; its default is [True]. *)
Definition owner_arg (kwargs : Kwargs) : bool :=
  match kwargs !! "connector_owner" with
  | Some v => truthy v
  | None => true
  end.

(** The object [aiohttp.ClientSession] builds from the keyword arguments.
    Whether it is open is the connector's affair: a session built on a
    closed connector is closed from the start. *)
Definition session_of (kwargs : Kwargs) : ClientSession :=
  {| _connector := Some (connector_arg kwargs);
     _connector_owner := owner_arg kwargs;
     init_kwargs := kwargs |}.

(** The session object after its [close()] went through:
    [self._connector = None]. *)
Definition close_session (s : ClientSession) : ClientSession :=
  {| _connector := None;
     _connector_owner := _connector_owner s;
     init_kwargs := init_kwargs s |}.

(** The caller-made connectors that are closed after [close()] went through
    on the open session [s]: the session closes its connector when it owns
    it. *)
Definition connectors_after_close (cc : list nat) (s : ClientSession) : list nat :=
  match _connector s with
  | Some (GivenConnector c) => if _connector_owner s then c :: cc else cc
  | _ => cc
  end.

(** The payload still waiting on the connection of a response. *)
Inductive Payload : Type :=
| Eof
| Chunk (data : list byte) (rest : Payload)
| Broken.

(** [StreamReader.read()]: every chunk up to the end of the stream. *)
Fixpoint read_all (p : Payload) : Result (list byte) :=
  match p with
  | Eof => Ok []
  | Chunk data rest =>
      match read_all rest with
      | Ok tl => Ok (data ++ tl)
      | Raise e => Raise e
      end
  | Broken => Raise ReadError
  end.

(** A stream that delivers the given chunks and then ends. *)
Definition payload_of (chunks : list (list byte)) : Payload :=
  foldr Chunk Eof chunks.

(** [aiohttp.ClientResponse]. *)
Record ClientResponse : Type := mkRaw {
  status : Z;
  content : Payload;
  _body : option (list byte);
  headers : list (string * string);
  content_type : string
}.

(** [await response.read()]: the buffered body when there is one,
    otherwise the whole stream. *)
Definition read (r : ClientResponse) : Result (list byte) :=
  match _body r with
  | Some b => Ok b
  | None => read_all (content r)
  end.

(** The response object once [read] has returned: the body is buffered
    and the stream is drained. *)
Definition after_read (r : ClientResponse) : ClientResponse :=
  match read r with
  | Ok b =>
      {| status := status r; content := Eof; _body := Some b;
         headers := headers r; content_type := content_type r |}
  | Raise _ => r
  end.

End Transport.
Export Transport.

(** ** [Response] *)

(** The dataclass [Response]; [body] is a byte string, not a stream. *)
Record Response : Type := mkResponse {
  status_code : Z;
  body : list byte;
  resp_headers : list (string * string);
  resp_content_type : string
}.

(** ** The holder and the world it runs in *)

(** The instance attributes set by [AbstractSessionHolder.__init__];
    [_session] is [Optional]: [None] is Python's [None]. *)
Record Holder : Type := mkHolder {
  _session : option loc;
  _session_kwargs : Kwargs
}.

(** [AiohttpSessionHolder.__init__]: called with the keyword arguments. *)
Definition __init__ (kwargs : Kwargs) : Holder :=
  {| _session := None; _session_kwargs := kwargs |}.

(** Method invocations on the holder, kept as a history (ghost state). *)
Inductive Call : Type :=
| CallGetSession
| CallClose
| CallParseResponse.

Global Instance Call_eq_dec : EqDecision Call.
Proof. solve_decision. Defined.

Record World : Type := mkWorld {
  heap : list ClientSession;   (* the session at address [l] is [heap !! l] *)
  closed_connectors : list nat; (* the caller-made connectors that are closed *)
  holder : Holder;
  calls : list Call
}.

(** [session.closed] in a world. *)
Definition closed (w : World) (s : ClientSession) : bool :=
  session_closed (closed_connectors w) s.

Definition M (A : Type) : Type := World -> Result A * World.

Definition ret {A} (a : A) : M A := fun w => (Ok a, w).

Definition raise {A} (e : Exc) : M A := fun w => (Raise e, w).

Definition bind {A B} (m : M A) (k : A -> M B) : M B :=
  fun w =>
    match m w with
    | (Ok a, w') => k a w'
    | (Raise e, w') => (Raise e, w')
    end.

Notation "x <- m ;; k" := (bind m (fun x => k))
  (at level 100, m at next level, right associativity).
Notation "m ;;; k" := (bind m (fun _ => k))
  (at level 100, right associativity).

Definition record (c : Call) : M unit :=
  fun w =>
    (Ok tt,
     {| heap := heap w; closed_connectors := closed_connectors w;
        holder := holder w; calls := calls w ++ [c] |}).

(** [self._session = ref]. *)
Definition assign_session (ref : option loc) : M unit :=
  fun w =>
    (Ok tt,
     {| heap := heap w;
        closed_connectors := closed_connectors w;
        holder := {| _session := ref;
                     _session_kwargs := _session_kwargs (holder w) |};
        calls := calls w |}).

(** Evaluating [self._session]. *)
Definition load_session : M (option loc) :=
  fun w => (Ok (_session (holder w)), w).

(** Allocation of a new object: its address is one no object has yet. *)
Definition alloc (s : ClientSession) : M loc :=
  fun w =>
    (Ok (length (heap w)),
     {| heap := heap w ++ [s]; closed_connectors := closed_connectors w;
        holder := holder w; calls := calls w |}).

(** [ref.closed] where [ref] is the value of an [Optional] attribute. *)
Definition get_closed (ref : option loc) : M bool :=
  fun w =>
    match ref with
    | None => (Raise AttributeError, w)
    | Some l =>
        match heap w !! l with
        | Some s => (Ok (closed w s), w)
        | None => (Raise DanglingSession, w)
        end
    end.

(** [await ref.close()]: nothing when the session is closed already;
    otherwise the session closes the connector it owns and lets go of it. *)
Definition native_close (ref : option loc) : M unit :=
  fun w =>
    match ref with
    | None => (Raise AttributeError, w)
    | Some l =>
        match heap w !! l with
        | Some s =>
            if closed w s
            then (Ok tt, w)
            else
              (Ok tt,
               {| heap := <[l := close_session s]> (heap w);
                  closed_connectors :=
                    connectors_after_close (closed_connectors w) s;
                  holder := holder w; calls := calls w |})
        | None => (Raise DanglingSession, w)
        end
    end.

Section AiohttpSessionHolder.

(** Whether the constructor [aiohttp.ClientSession] accepts the keyword
    arguments it is called with; it raises otherwise (a keyword it does not
    have, a value of the wrong kind). *)
Variable accepts : Kwargs -> bool.

(** A call of [aiohttp.ClientSession] with unpacked keyword arguments: a
    new session that owns a copy of them. *)
Definition new_client_session (kwargs : Kwargs) : M loc :=
  if accepts kwargs
  then alloc (session_of kwargs)
  else raise AllocationError.

(** [return self._session is not None and self._session.closed is False] *)
Definition _session_in_working_order : M bool :=
  ref <- load_session ;;
  match ref with
  | None => ret false
  | Some _ => c <- get_closed ref ;; ret (negb c)
  end.

Definition _instantiate_new_session : M (option loc) :=
  fun w =>
    (l <- new_client_session (_session_kwargs (holder w)) ;;
     assign_session (Some l) ;;;
     load_session) w.

Definition get_session : M (option loc) :=
  record CallGetSession ;;;
  ok <- _session_in_working_order ;;
  if ok then load_session else _instantiate_new_session.

Definition close : M unit :=
  record CallClose ;;;
  ok <- _session_in_working_order ;;
  if ok then (ref <- load_session ;; native_close ref) else ret tt.

Definition parse_response (response : ClientResponse) : M Response :=
  record CallParseResponse ;;;
  match read response with
  | Ok b =>
      ret {| status_code := status response;
             body := b;
             resp_headers := headers response;
             resp_content_type := content_type response |}
  | Raise e => raise e
  end.

(** [self._session_kwargs.update(kwargs)]: the given keys overwrite. *)
Definition update_session_kwargs (kwargs : Kwargs) : M unit :=
  fun w =>
    (Ok tt,
     {| heap := heap w;
        closed_connectors := closed_connectors w;
        holder := {| _session := _session (holder w);
                     _session_kwargs := kwargs ∪ _session_kwargs (holder w) |};
        calls := calls w |}).

Definition __aenter__ : M (option loc) :=
  ref <- get_session ;;
  assign_session ref ;;;
  load_session.

(** The three exception arguments are not looked at; the method returns
    [None], so an exception raised in the scope is never suppressed. *)
Definition __aexit__ (exc : option Exc) : M unit :=
  close.

(** [async with holder as s: body(s)], as the language defines it: the
    exit hook runs when, and only when, the enter hook has returned. *)
Definition async_with {A} (body : option loc -> M A) : M A :=
  fun w =>
    match __aenter__ w with
    | (Raise e, w1) => (Raise e, w1)
    | (Ok s, w1) =>
        match body s w1 with
        | (Ok a, w2) =>
            match __aexit__ None w2 with
            | (Ok _, w3) => (Ok a, w3)
            | (Raise e', w3) => (Raise e', w3)
            end
        | (Raise e, w2) =>
            match __aexit__ (Some e) w2 with
            | (Ok _, w3) => (Raise e, w3)
            | (Raise e', w3) => (Raise e', w3)
            end
        end
    end.

(** ** Outside actors *)

(** Code outside the holder that kept a session returned by [get_session]
    and closes it itself. *)
Definition external_close (l : loc) : M unit :=
  native_close (Some l).

(** The caller closes a connector of its own: [await connector.close()]. *)
Definition external_close_connector (c : nat) : M unit :=
  fun w =>
    (Ok tt,
     {| heap := heap w;
        closed_connectors :=
          if bool_decide (c ∈ closed_connectors w)
          then closed_connectors w
          else c :: closed_connectors w;
        holder := holder w; calls := calls w |}).

(** ** Sequences of operations on one holder *)

Inductive Op : Type :=
| OpGetSession
| OpClose
| OpUpdate (kwargs : Kwargs)
| OpParse (response : ClientResponse)
| OpEnter
| OpExit
| OpExternalClose (l : loc)
| OpExternalCloseConnector (c : nat).

Inductive Ret : Type :=
| RetSession (r : Result (option loc))
| RetUnit (r : Result unit)
| RetResponse (r : Result Response).

Definition step (o : Op) (w : World) : Ret * World :=
  match o with
  | OpGetSession => let (r, w') := get_session w in (RetSession r, w')
  | OpClose => let (r, w') := close w in (RetUnit r, w')
  | OpUpdate kwargs => let (r, w') := update_session_kwargs kwargs w in (RetUnit r, w')
  | OpParse response => let (r, w') := parse_response response w in (RetResponse r, w')
  | OpEnter => let (r, w') := __aenter__ w in (RetSession r, w')
  | OpExit => let (r, w') := __aexit__ None w in (RetUnit r, w')
  | OpExternalClose l => let (r, w') := external_close l w in (RetUnit r, w')
  | OpExternalCloseConnector c =>
      let (r, w') := external_close_connector c w in (RetUnit r, w')
  end.

(** The caller goes on with the next operation whatever the previous one
    returned or raised. *)
Fixpoint run (ops : list Op) (w : World) : list Ret * World :=
  match ops with
  | [] => ([], w)
  | o :: rest =>
      let (r, w1) := step o w in
      let (rs, w2) := run rest w1 in
      (r :: rs, w2)
  end.

(** The outcomes of the operations that hand out a session. *)
Fixpoint sessions_of (rs : list Ret) : list (Result (option loc)) :=
  match rs with
  | [] => []
  | RetSession r :: rest => r :: sessions_of rest
  | _ :: rest => sessions_of rest
  end.

(** Operations that close no session. *)
Definition non_closing (o : Op) : bool :=
  match o with
  | OpClose | OpExit | OpExternalClose _ | OpExternalCloseConnector _ => false
  | _ => true
  end.

(** [for _ in range(n): await holder.close()] *)
Fixpoint close_times (n : nat) : M unit :=
  match n with
  | O => ret tt
  | S k => close ;;; close_times k
  end.

End AiohttpSessionHolder.

(** ** Reading the store *)

(** The holder refers to an object of the store; every world a Python
    program reaches is such. *)
Definition wf (w : World) : Prop :=
  match _session (holder w) with
  | None => True
  | Some l => l < length (heap w)
  end.

(** The states of the holder's life cycle. *)
Inductive Phase : Type :=
| Unallocated
| Active
| Closed.

Definition phase (w : World) : option Phase :=
  match _session (holder w) with
  | None => Some Unallocated
  | Some l =>
      match heap w !! l with
      | Some s => Some (if closed w s then Closed else Active)
      | None => None
      end
  end.

(** The holder's session is the open session at [l]. *)
Definition live (l : loc) (w : World) : Prop :=
  _session (holder w) = Some l /\
  exists s, heap w !! l = Some s /\ closed w s = false.

(** Same objects, same connectors closed and same holder attributes; the
    history may differ. *)
Definition same_store (w w' : World) : Prop :=
  heap w' = heap w /\ holder w' = holder w /\
  closed_connectors w' = closed_connectors w.

(** The [close] invocations of a history. *)
Definition close_count (cs : list Call) : nat :=
  length (filter (fun c => c = CallClose) cs).


(** ** Operation sequences and stores, measured *)

(** The operations of a sequence that may close a session. *)
Definition closures (ops : list Op) : nat :=
  length (List.filter (fun o => negb (non_closing o)) ops).

Definition is_update (o : Op) : bool :=
  match o with
  | OpUpdate _ => true
  | _ => false
  end.

(** Operations of an outside actor. *)
Definition is_external (o : Op) : bool :=
  match o with
  | OpExternalClose _ | OpExternalCloseConnector _ => true
  | _ => false
  end.

(** Updates that put a connector into the keyword arguments. *)
Definition brings_connector (o : Op) : bool :=
  match o with
  | OpUpdate kwargs =>
      match connector_arg kwargs with
      | GivenConnector _ => true
      | OwnConnector => false
      end
  | _ => false
  end.

(** Every open session of the store is the one the holder refers to. *)
Definition no_stray_open (w : World) : Prop :=
  forall l s,
    heap w !! l = Some s -> closed w s = false -> _session (holder w) = Some l.

(** The four things one operation can do to the sessions, to the
    connectors and to the holder's reference: nothing; append one session
    built from the current keyword arguments and make it current; close
    one open session; close one connector of the caller's. *)
Inductive StoreChange (o : Op) (w w' : World) : Prop :=
| sc_unchanged :
    heap w' = heap w ->
    _session (holder w') = _session (holder w) ->
    closed_connectors w' = closed_connectors w ->
    StoreChange o w w'
| sc_allocated :
    non_closing o = true ->
    phase w <> Some Active ->
    heap w' = heap w ++ [ session_of (_session_kwargs (holder w)) ] ->
    holder w' = {| _session := Some (length (heap w));
                   _session_kwargs := _session_kwargs (holder w) |} ->
    closed_connectors w' = closed_connectors w ->
    StoreChange o w w'
| sc_closed (l : loc) (s : ClientSession) :
    non_closing o = false ->
    heap w !! l = Some s ->
    closed w s = false ->
    (is_external o = false -> _session (holder w) = Some l) ->
    heap w' = <[l := close_session s]> (heap w) ->
    closed_connectors w' = connectors_after_close (closed_connectors w) s ->
    holder w' = holder w ->
    StoreChange o w w'
| sc_connector (c : nat) :
    o = OpExternalCloseConnector c ->
    heap w' = heap w ->
    holder w' = holder w ->
    closed_connectors w' = c :: closed_connectors w ->
    StoreChange o w w'.

(** One when the holder has no open session (the next [get_session] has to
    allocate), zero when it has. *)
Definition idle (w : World) : nat :=
  match phase w with
  | Some Active => 0
  | _ => 1
  end.

(** Operations that neither close a session nor change the configuration. *)
Definition quiet (o : Op) : bool :=
  non_closing o && negb (is_update o).

(** A scope body that performs the given operations on the holder and
    hands back the session it was given. *)
Definition ops_body (accepts : Kwargs -> bool) (ops : list Op)
    (s : option loc) : M (option loc) :=
  fun w => (Ok s, snd (run accepts ops w)).

(** Two scopes one after the other; the result is the two sessions. *)
Definition two_scopes (accepts : Kwargs -> bool) (ops1 ops2 : list Op) :
    M (option loc * option loc) :=
  s1 <- async_with accepts (ops_body accepts ops1) ;;
  s2 <- async_with accepts (ops_body accepts ops2) ;;
  ret (s1, s2).

(** A scope inside a scope on the same holder; the result is the two
    sessions and, read after the inner scope has ended, the closed-flag of
    the outer scope's session. *)
Definition nested_scopes (accepts : Kwargs -> bool) (ops : list Op) :
    M (option loc * option loc * bool) :=
  async_with accepts
    (fun s1 =>
       s2 <- async_with accepts (ops_body accepts ops) ;;
       c <- get_closed s1 ;;
       ret (s1, s2, c)).

(** ** Concrete data *)

(** A transport whose constructor takes any keyword. *)
Definition accept_all (kwargs : Kwargs) : bool := true.

(** A transport whose constructor has no keyword ["bogus"]. *)
Definition reject_bogus (kwargs : Kwargs) : bool :=
  match kwargs !! "bogus" with
  | None => true
  | Some _ => false
  end.

(** A transport that wants a ["timeout"] keyword. *)
Definition needs_timeout (kwargs : Kwargs) : bool :=
  match kwargs !! "timeout" with
  | Some _ => true
  | None => false
  end.

(** A holder just constructed, in a store without sessions. *)
Definition new_world (kwargs : Kwargs) : World :=
  {| heap := []; closed_connectors := [];
     holder := __init__ kwargs; calls := [] |}.

(** A holder whose session at address 0 is open. *)
Definition active_world : World :=
  {| heap := [ session_of ∅ ];
     closed_connectors := [];
     holder := {| _session := Some 0; _session_kwargs := ∅ |};
     calls := [] |}.

(** A holder whose session at address 0 has been closed. *)
Definition closed_world : World :=
  {| heap := [ close_session (session_of ∅) ];
     closed_connectors := [];
     holder := {| _session := Some 0; _session_kwargs := ∅ |};
     calls := [] |}.

Definition timeout_5 : Kwargs := {[ "timeout" := VInt 5 ]}.

Definition bogus_kwargs : Kwargs := {[ "bogus" := VInt 1 ]}.

(** The caller passes a connector of its own, number 7. *)
Definition connector_7 : Kwargs := {[ "connector" := VConnector 7 ]}.

(** Status 200, body [b"ok"], one header, [text/plain]; nothing read yet. *)
Definition raw_ok : ClientResponse :=
  {| status := 200;
     content := Chunk [x6f; x6b] Eof;
     _body := None;
     headers := [("X-Test", "1")];
     content_type := "text/plain" |}.

(** The same response arriving in two chunks. *)
Definition raw_ok_chunked : ClientResponse :=
  {| status := 200;
     content := Chunk [x6f] (Chunk [x6b] Eof);
     _body := None;
     headers := [("X-Test", "1")];
     content_type := "text/plain" |}.

Definition raw_broken : ClientResponse :=
  {| status := 200;
     content := Chunk [x6f] Broken;
     _body := None;
     headers := [];
     content_type := "text/plain" |}.

(** A scope body that raises. *)
Definition raising_body (s : option loc) : M unit :=
  raise (CallerError 7).

(** Operations none of which closes a session. *)
Definition quiet_ops : list Op :=
  [OpGetSession; OpUpdate timeout_5; OpParse raw_ok; OpEnter; OpGetSession].

(** The world after the first [get_session] on a new holder. *)
Definition first_got : World :=
  snd (get_session accept_all (new_world ∅)).

(** The world after entering a scope on a new holder. *)
Definition entered_world : World :=
  snd (__aenter__ accept_all (new_world ∅)).

(** [active_world] after the holder closed its session. *)
Definition closed_by_holder : World :=
  snd (close active_world).

(** [active_world] after an outside actor closed the session. *)
Definition closed_by_outsider : World :=
  snd (external_close 0 active_world).


(** A holder constructed with the caller's connector 7, after one
    [get_session] and one [close]: the session at address 0 is closed, and
    so is the connector, which the session owned. *)
Definition spent_world : World :=
  snd (run accept_all [OpGetSession; OpClose] (new_world connector_7)).

(** A holder constructed with the caller's connector 7, after its first
    [get_session]: the session at address 0 is open. *)
Definition connector_got : World :=
  snd (get_session accept_all (new_world connector_7)).

(** [spent_world] after one more [get_session]. *)
Definition spent_got : World :=
  snd (get_session accept_all spent_world).

(** Two sessions, both closed a while ago; the holder refers to the second. *)
Definition two_closed_world : World :=
  {| heap := [ close_session (session_of ∅);
               close_session (session_of timeout_5) ];
     closed_connectors := [];
     holder := {| _session := Some 1; _session_kwargs := timeout_5 |};
     calls := [] |}.

(** A busy caller: scopes, an outside closure, a change of configuration.
    Run on a new holder it allocates three sessions and leaves the last
    one open. *)
Definition busy_ops : list Op :=
  [OpEnter; OpGetSession; OpExit; OpGetSession; OpExternalClose 1;
   OpUpdate timeout_5; OpGetSession; OpParse raw_ok].

(** The same caller without the change of configuration. *)
Definition no_update_ops : list Op :=
  [OpEnter; OpGetSession; OpExit; OpGetSession; OpExternalClose 1].

(** What a quiet scope body may do. *)
Definition scope_ops : list Op :=
  [OpGetSession; OpParse raw_ok].

(** A store that also holds an open session of somebody else, at address
    0, on a connector of its own; the holder's open session is at address
    1. *)
Definition shared_store_world : World :=
  {| heap := [ session_of ∅; session_of ∅ ];
     closed_connectors := [];
     holder := {| _session := Some 1; _session_kwargs := ∅ |};
     calls := [] |}.

(** A store in which somebody else's open session, at address 0, and the
    holder's open session, at address 1, are built on the same connector 7
    of the caller. *)
Definition shared_connector_world : World :=
  {| heap := [ session_of connector_7; session_of connector_7 ];
     closed_connectors := [];
     holder := {| _session := Some 1; _session_kwargs := connector_7 |};
     calls := [] |}.

(** * Properties *)

Ltac unfold_m :=
  unfold __aenter__, __aexit__ in *;
  unfold get_session, close, external_close in *;
  unfold _instantiate_new_session, _session_in_working_order, parse_response,
    update_session_kwargs, external_close_connector in *;
  unfold new_client_session, native_close, get_closed, load_session,
    assign_session, alloc, record, bind, ret, raise, closed in *;
  simpl in *.

(** Case analysis on what the holder refers to: a closed session, an open
    one, no object, or [None]. *)
Ltac case_session w :=
  let hp := fresh "hp" in
  let cc := fresh "cc" in
  let l := fresh "l" in
  let kw := fresh "kw" in
  let cs := fresh "cs" in
  let s := fresh "s" in
  let Hl := fresh "Hl" in
  let Hc := fresh "Hc" in
  destruct w as [hp cc [[l|] kw] cs]; simpl in *;
  [ destruct (hp !! l) as [s|] eqn:Hl; simpl in *;
    [ destruct (session_closed cc s) eqn:Hc; simpl in * | ] | ].

Section Properties.

Variable accepts : Kwargs -> bool.

(** ** The closed-flag of a session *)

Lemma closed_ext (w w' : World) (s : ClientSession) :
  closed_connectors w' = closed_connectors w -> closed w' s = closed w s.
Proof. intros H. unfold closed. rewrite H. reflexivity. Qed.

Lemma closed_close_session (w : World) (s : ClientSession) :
  closed w (close_session s) = true.
Proof. reflexivity. Qed.

Lemma session_closed_mono (cc cc' : list nat) (s : ClientSession) :
  (forall c, c ∈ cc -> c ∈ cc') ->
  session_closed cc s = true -> session_closed cc' s = true.
Proof.
  intros Hin. unfold session_closed, connector_closed.
  destruct (_connector s) as [[|c]|]; auto.
  intros H. apply bool_decide_eq_true in H. apply bool_decide_eq_true. auto.
Qed.

Lemma connectors_after_close_incl (cc : list nat) (s : ClientSession) (c : nat) :
  c ∈ cc -> c ∈ connectors_after_close cc s.
Proof.
  intros H. unfold connectors_after_close.
  destruct (_connector s) as [[|c0]|]; auto.
  destruct (_connector_owner s); auto. apply elem_of_cons. auto.
Qed.

(** ** The liveness predicate *)

Lemma working_order_pure (w : World) :
  snd (_session_in_working_order w) = w.
Proof. unfold_m. case_session w; reflexivity. Qed.

Lemma working_order_phase (w : World) :
  fst (_session_in_working_order w) =
  match phase w with
  | Some Active => Ok true
  | Some _ => Ok false
  | None => Raise DanglingSession
  end.
Proof.
  unfold phase. unfold_m. case_session w; rewrite ?Hl, ?Hc; reflexivity.
Qed.

Lemma phase_active_live (w : World) :
  phase w = Some Active <-> exists l, live l w.
Proof.
  unfold phase, live. split.
  - destruct (_session (holder w)) as [l|]; [|discriminate].
    destruct (heap w !! l) as [s|] eqn:Hs; [|discriminate].
    destruct (closed w s) eqn:Hc; [discriminate|]. intros _. eauto.
  - intros (l & -> & s & -> & ->). reflexivity.
Qed.

Lemma working_order_live (w : World) :
  fst (_session_in_working_order w) = Ok true <-> exists l, live l w.
Proof.
  rewrite working_order_phase, <- phase_active_live.
  destruct (phase w) as [[| |]|]; split; intros H; try discriminate; reflexivity.
Qed.

Lemma working_order_true (l : loc) (w : World) :
  live l w -> _session_in_working_order w = (Ok true, w).
Proof.
  intros H. rewrite (surjective_pairing (_session_in_working_order w)).
  rewrite working_order_pure. f_equal. apply working_order_live. eauto.
Qed.

Lemma live_wf (l : loc) (w : World) : live l w -> wf w.
Proof.
  intros (Hl & s & Hs & _). unfold wf. rewrite Hl.
  eapply lookup_lt_Some; eassumption.
Qed.

Lemma live_phase (l : loc) (w : World) : live l w -> phase w = Some Active.
Proof. intros H. apply phase_active_live. eauto. Qed.

Lemma phase_ext (w w' : World) :
  heap w' = heap w -> _session (holder w') = _session (holder w) ->
  closed_connectors w' = closed_connectors w ->
  phase w' = phase w.
Proof.
  intros Hh Hs Hc. unfold phase. rewrite Hh, Hs.
  destruct (_session (holder w)) as [l|]; [|reflexivity].
  destruct (heap w !! l) as [s|]; [|reflexivity].
  rewrite (closed_ext w w' s Hc). reflexivity.
Qed.

(** ** [get_session] *)

Lemma get_session_live (l : loc) (w : World) :
  live l w ->
  get_session accepts w = (Ok (Some l), snd (record CallGetSession w)).
Proof.
  intros H. unfold get_session, bind at 1. simpl.
  assert (H' : live l (snd (record CallGetSession w))) by exact H.
  unfold bind. simpl in *. rewrite (working_order_true l _ H').
  unfold load_session. simpl. destruct H as [-> _]. reflexivity.
Qed.

(** What [get_session] returns is a session of the store and the holder's
    current one. *)
Lemma get_session_ok (w w1 : World) (r : option loc) :
  get_session accepts w = (Ok r, w1) ->
  exists l, r = Some l /\ _session (holder w1) = Some l /\ l < length (heap w1).
Proof.
  unfold_m. case_session w; rewrite ?Hc; simpl; intros H.
  - destruct (accepts kw); simpl in H; inversion H; subst; clear H.
    eexists; split; [reflexivity|]. simpl. split; [reflexivity|].
    rewrite length_app. simpl. lia.
  - inversion H; subst; clear H. simpl.
    eexists; split; [reflexivity|]. split; [reflexivity|].
    eapply lookup_lt_Some; eassumption.
  - discriminate.
  - destruct (accepts kw); simpl in H; inversion H; subst; clear H.
    eexists; split; [reflexivity|]. simpl. split; [reflexivity|].
    rewrite length_app. simpl. lia.
Qed.

Lemma aenter_is_get_session (w : World) :
  __aenter__ accepts w = get_session accepts w.
Proof.
  unfold_m. case_session w; rewrite ?Hl, ?Hc; simpl;
    try destruct (accepts kw); reflexivity.
Qed.

Lemma aenter_live (l : loc) (w : World) :
  live l w ->
  __aenter__ accepts w = (Ok (Some l), snd (record CallGetSession w)).
Proof. intros H. rewrite aenter_is_get_session. apply get_session_live. exact H. Qed.

(** An operation that closes nothing keeps an open session open, keeps
    every object as it is, and hands out that session if any. *)
Lemma step_non_closing (l : loc) (o : Op) (w : World) :
  live l w -> non_closing o = true ->
  live l (snd (step accepts o w)) /\
  heap (snd (step accepts o w)) = heap w /\
  closed_connectors (snd (step accepts o w)) = closed_connectors w /\
  forall x, fst (step accepts o w) = RetSession x -> x = Ok (Some l).
Proof.
  intros H Hq. destruct o; simpl in Hq; try discriminate; simpl.
  - rewrite (get_session_live l w H). simpl. split; [exact H|].
    split; [reflexivity|]. split; [reflexivity|].
    intros x Hx. inversion Hx. reflexivity.
  - split; [exact H|]. split; [reflexivity|]. split; [reflexivity|].
    intros x Hx. discriminate.
  - unfold parse_response, bind. simpl.
    destruct (read response); simpl;
      (split; [exact H|]; split; [reflexivity|]; split; [reflexivity|]);
      intros x Hx; discriminate.
  - rewrite (aenter_live l w H). simpl. split; [exact H|].
    split; [reflexivity|]. split; [reflexivity|].
    intros x Hx. inversion Hx. reflexivity.
Qed.

Lemma run_non_closing (l : loc) (ops : list Op) (w : World) :
  live l w -> forallb non_closing ops = true ->
  Forall (fun x => x = Ok (Some l)) (sessions_of (fst (run accepts ops w))) /\
  live l (snd (run accepts ops w)) /\
  heap (snd (run accepts ops w)) = heap w /\
  closed_connectors (snd (run accepts ops w)) = closed_connectors w.
Proof.
  revert w. induction ops as [|o ops IH]; intros w H Hq; simpl.
  - split; [constructor|]. split; [exact H|]. split; reflexivity.
  - simpl in Hq. apply andb_prop in Hq. destruct Hq as [Ho Hq].
    destruct (step_non_closing l o w H Ho) as (H1 & Hh & Hcc & Hr).
    destruct (step accepts o w) as [r w1] eqn:Hstep. simpl in *.
    destruct (IH w1 H1 Hq) as (IHr & IHl & IHh & IHcc).
    destruct (run accepts ops w1) as [rs w2]. simpl in *.
    split; [|split; [exact IHl|split; congruence]].
    destruct r; simpl; try exact IHr.
    constructor; [apply Hr; reflexivity|exact IHr].
Qed.

(** C1 (as amended). Once [get_session] has returned a session that is
    open (the holder is Active), every later [get_session] (and every scope
    entry) returns that very session, as long as nothing closes it in
    between: neither [close], a scope exit, nor an outside actor.  Other
    operations ([update_session_kwargs], [parse_response]) may be
    interleaved.  No session is allocated on the way and the holder keeps
    referring to the same open session. *)
Theorem get_session_reuse (w w1 : World) (r : option loc) (ops : list Op) :
  get_session accepts w = (Ok r, w1) ->
  phase w1 = Some Active ->
  forallb non_closing ops = true ->
  is_Some r /\
  Forall (fun x => x = Ok r) (sessions_of (fst (run accepts ops w1))) /\
  heap (snd (run accepts ops w1)) = heap w1 /\
  _session (holder (snd (run accepts ops w1))) = r /\
  phase (snd (run accepts ops w1)) = Some Active.
Proof.
  intros Hget Hact Hq.
  destruct (get_session_ok w w1 r Hget) as (l & -> & Hcur & _).
  apply phase_active_live in Hact as [l' Hl].
  assert (l' = l) by (destruct Hl as [Hl _]; congruence). subst l'.
  destruct (run_non_closing l ops w1 Hl Hq) as (Hr & Hl' & Hh & _).
  split; [eauto|]. split; [exact Hr|]. split; [exact Hh|].
  split; [apply Hl'|]. eapply live_phase; eassumption.
Qed.

(** ** [close] *)

Lemma close_live (l : loc) (s : ClientSession) (w : World) :
  _session (holder w) = Some l -> heap w !! l = Some s -> closed w s = false ->
  close w =
  (Ok tt, {| heap := <[l := close_session s]> (heap w);
             closed_connectors := connectors_after_close (closed_connectors w) s;
             holder := holder w;
             calls := calls w ++ [CallClose] |}).
Proof.
  intros Hl Hs Hc. destruct w as [hp cc [r kw] cs]. simpl in *. subst r.
  unfold_m. rewrite Hs. simpl. rewrite Hc. simpl. rewrite Hs, Hc. reflexivity.
Qed.

Lemma close_idle (w : World) :
  fst (_session_in_working_order w) = Ok false ->
  close w = (Ok tt, snd (record CallClose w)).
Proof.
  unfold_m. case_session w; rewrite ?Hc; simpl; intros H;
    try discriminate; reflexivity.
Qed.

Lemma wf_phase (w : World) : wf w -> exists p, phase w = Some p.
Proof.
  unfold wf, phase. destruct (_session (holder w)) as [l|]; [|eauto].
  intros Hlt. destruct (lookup_lt_is_Some_2 _ _ Hlt) as [s ->]. eauto.
Qed.

Lemma phase_wf (w : World) (p : Phase) : phase w = Some p -> wf w.
Proof.
  unfold wf, phase. destruct (_session (holder w)) as [l|]; [|auto].
  destruct (heap w !! l) as [s|] eqn:Hs; [|discriminate].
  intros _. eapply lookup_lt_Some; eassumption.
Qed.

(** One [close] on a well-formed world: it returns, keeps the holder's
    attributes, touches no object unless the session was open, and leaves
    a holder that is not in working order. *)
Lemma close_wf (w : World) :
  wf w ->
  exists w',
    close w = (Ok tt, w') /\
    holder w' = holder w /\
    calls w' = calls w ++ [CallClose] /\
    length (heap w') = length (heap w) /\
    (phase w <> Some Active ->
     heap w' = heap w /\ closed_connectors w' = closed_connectors w) /\
    (phase w' = Some Closed \/ phase w' = Some Unallocated).
Proof.
  intros Hwf. destruct (wf_phase w Hwf) as [p Hp]. destruct p.
  - (* Unallocated *)
    rewrite close_idle by (rewrite working_order_phase, Hp; reflexivity).
    eexists; split; [reflexivity|]. simpl. repeat split; auto.
  - (* Active *)
    unfold phase in Hp. destruct (_session (holder w)) as [l|] eqn:Hl; [|discriminate].
    destruct (heap w !! l) as [s|] eqn:Hs; [|discriminate].
    destruct (closed w s) eqn:Hc; [discriminate|].
    rewrite (close_live l s w Hl Hs Hc).
    eexists; split; [reflexivity|]. simpl. repeat split; auto.
    + apply length_insert.
    + exfalso. apply H. unfold phase. rewrite Hl, Hs, Hc. reflexivity.
    + exfalso. apply H. unfold phase. rewrite Hl, Hs, Hc. reflexivity.
    + left. unfold phase. simpl. rewrite Hl.
      rewrite list_lookup_insert_eq by (eapply lookup_lt_Some; eassumption).
      reflexivity.
  - (* Closed *)
    rewrite close_idle by (rewrite working_order_phase, Hp; reflexivity).
    eexists; split; [reflexivity|]. simpl. repeat split; auto.
Qed.

Lemma close_times_wf (n : nat) (w : World) :
  wf w ->
  exists w',
    close_times n w = (Ok tt, w') /\
    wf w' /\
    holder w' = holder w /\
    calls w' = calls w ++ replicate n CallClose /\
    (phase w <> Some Active ->
     heap w' = heap w /\ closed_connectors w' = closed_connectors w) /\
    (1 <= n -> phase w' = Some Closed \/ phase w' = Some Unallocated).
Proof.
  revert w. induction n as [|n IH]; intros w Hwf.
  - exists w. simpl. unfold ret. rewrite app_nil_r.
    repeat split; auto. intros Hn. inversion Hn.
  - destruct (close_wf w Hwf) as (w1 & Hc & Hh & Hcs & Hlen & Hidle & Hph).
    assert (Hwf1 : wf w1) by (destruct Hph as [Hph|Hph]; eapply phase_wf; eassumption).
    destruct (IH w1 Hwf1) as (w2 & Hc2 & Hwf2 & Hh2 & Hcs2 & Hidle2 & Hph2).
    exists w2. simpl. unfold bind. rewrite Hc. rewrite Hc2.
    assert (Hna : phase w1 <> Some Active) by (destruct Hph as [-> | ->]; discriminate).
    repeat split; auto.
    + congruence.
    + rewrite Hcs2, Hcs. rewrite <- app_assoc. reflexivity.
    + destruct (Hidle2 Hna) as [-> _]. apply Hidle. assumption.
    + destruct (Hidle2 Hna) as [_ ->]. apply Hidle. assumption.
    + intros _. destruct n as [|n].
      * simpl in Hc2. unfold ret in Hc2. inversion Hc2. subst w2. exact Hph.
      * apply Hph2. lia.
Qed.

(** C2 (as amended). From any state, calling [close] [n] times in a row
    never raises, for every [n >= 0]; each of the [n] calls is recorded;
    when the holder has no session or a closed one, no call changes the
    store or the holder; and for [n >= 1] the holder ends Closed or
    Unallocated.  (For [n = 0] the holder is simply left as it was.) *)
Theorem close_times_safe (n : nat) (w : World) :
  wf w ->
  fst (close_times n w) = Ok tt /\
  calls (snd (close_times n w)) = calls w ++ replicate n CallClose /\
  (phase w <> Some Active -> same_store w (snd (close_times n w))) /\
  (1 <= n ->
   phase (snd (close_times n w)) = Some Closed \/
   phase (snd (close_times n w)) = Some Unallocated).
Proof.
  intros Hwf.
  destruct (close_times_wf n w Hwf) as (w' & -> & _ & Hh & Hcs & Hidle & Hph).
  simpl. split; [reflexivity|]. split; [exact Hcs|]. split; [|exact Hph].
  intros Hna. destruct (Hidle Hna) as [H1 H2]. repeat split; assumption.
Qed.

(** C8. The liveness predicate answers, and changes nothing.  Its answer
    is true exactly when the stored reference is set and the session it
    refers to has its closed-flag false; it is false exactly when the
    reference is [None] (on a new holder it is false, not an error) or the
    session referred to is closed.  On a true answer [get_session] returns
    the stored reference and [close] closes the session; on a false answer
    [get_session] is the allocation of a new session and [close] does
    nothing. *)
Theorem working_order_decides (w : World) :
  (fst (_session_in_working_order w) = Ok true <->
   exists l s, _session (holder w) = Some l /\ heap w !! l = Some s /\
               closed w s = false) /\
  (fst (_session_in_working_order w) = Ok false <->
   _session (holder w) = None \/
   exists l s, _session (holder w) = Some l /\ heap w !! l = Some s /\
               closed w s = true) /\
  (wf w -> exists b, _session_in_working_order w = (Ok b, w)) /\
  snd (_session_in_working_order w) = w /\
  (fst (_session_in_working_order w) = Ok true ->
   get_session accepts w = (Ok (_session (holder w)), snd (record CallGetSession w)) /\
   close w = native_close (_session (holder w)) (snd (record CallClose w))) /\
  (fst (_session_in_working_order w) = Ok false ->
   get_session accepts w = _instantiate_new_session accepts (snd (record CallGetSession w)) /\
   close w = (Ok tt, snd (record CallClose w))).
Proof.
  split; [|split; [|split; [|split; [apply working_order_pure|split]]]].
  - rewrite working_order_live. unfold live. split.
    + intros (l & Hl & s & Hs & Hc). eauto.
    + intros (l & s & Hl & Hs & Hc). eauto.
  - rewrite working_order_phase. unfold phase.
    destruct (_session (holder w)) as [l|] eqn:Hl.
    + destruct (heap w !! l) as [s|] eqn:Hs.
      * destruct (closed w s) eqn:Hc; split; intros H.
        -- right. eauto.
        -- reflexivity.
        -- discriminate.
        -- destruct H as [H | (l0 & s0 & H0 & Hs0 & Hc0)]; [discriminate|].
           inversion H0; subst l0. rewrite Hs in Hs0. inversion Hs0; subst s0.
           congruence.
      * split; intros H; [discriminate|].
        destruct H as [H | (l0 & s0 & H0 & Hs0 & Hc0)]; [discriminate|].
        inversion H0; subst l0. rewrite Hs in Hs0. discriminate.
    + split; auto.
  - intros Hwf. rewrite (surjective_pairing (_session_in_working_order w)).
    rewrite working_order_pure, working_order_phase.
    destruct (wf_phase w Hwf) as [[| |] ->]; eauto.
  - unfold_m. case_session w; rewrite ?Hc; simpl; intros H; try discriminate.
    rewrite Hl. simpl. rewrite Hc. split; reflexivity.
  - unfold_m. case_session w; rewrite ?Hc; simpl; intros H;
      try discriminate; split; reflexivity.
Qed.

(** C10. [close] never clears the stored reference: afterwards the holder
    refers to the same object as before, and when that session was open it
    is now that object's closed-flag that is set, which is all that makes
    the holder Closed.  An operation can change the stored reference only
    by allocating: it is then [get_session] (directly or through a scope
    entry), the liveness predicate was false, and the new reference is the
    newly allocated session. *)
Theorem close_keeps_reference (w : World) :
  _session (holder (snd (close w))) = _session (holder w) /\
  (forall l, live l w ->
     phase (snd (close w)) = Some Closed /\
     exists s, heap (snd (close w)) !! l = Some s /\
               closed (snd (close w)) s = true) /\
  (forall o,
     _session (holder (snd (step accepts o w))) <> _session (holder w) ->
     (o = OpGetSession \/ o = OpEnter) /\
     fst (_session_in_working_order w) = Ok false /\
     _session (holder (snd (step accepts o w))) = Some (length (heap w))).
Proof.
  split; [|split].
  - unfold_m. case_session w; rewrite ?Hl, ?Hc; reflexivity.
  - intros l (Hl & s & Hs & Hc). rewrite (close_live l s w Hl Hs Hc).
    unfold phase. simpl. rewrite Hl.
    rewrite list_lookup_insert_eq by (eapply lookup_lt_Some; eassumption).
    split; [reflexivity|]. eexists; split; reflexivity.
  - intros o Hne. destruct o; simpl in Hne; simpl.
    + revert Hne. unfold_m. case_session w; rewrite ?Hl, ?Hc; simpl;
        try destruct (accepts kw); simpl; intros Hne;
        try (exfalso; apply Hne; reflexivity); auto.
    + exfalso. apply Hne. unfold_m. case_session w; rewrite ?Hl, ?Hc; reflexivity.
    + exfalso. apply Hne. reflexivity.
    + exfalso. apply Hne. unfold_m. destruct (read response); reflexivity.
    + revert Hne. unfold_m. case_session w; rewrite ?Hl, ?Hc; simpl;
        try destruct (accepts kw); simpl; intros Hne;
        try (exfalso; apply Hne; reflexivity); auto.
    + exfalso. apply Hne. unfold_m. case_session w; rewrite ?Hl, ?Hc; reflexivity.
    + exfalso. apply Hne. unfold_m. destruct (heap w !! l) as [s|]; [|reflexivity].
      destruct (session_closed (closed_connectors w) s); reflexivity.
    + exfalso. apply Hne. reflexivity.
Qed.

(** ** [parse_response] *)

Lemma read_all_payload_of (chunks : list (list byte)) :
  read_all (payload_of chunks) = Ok (concat chunks).
Proof.
  induction chunks as [|c chunks IH]; [reflexivity|].
  change (payload_of (c :: chunks)) with (Chunk c (payload_of chunks)).
  simpl. rewrite IH. reflexivity.
Qed.

(** C7. [parse_response] returns the [Response] made of the raw
    response's status, the bytes its [read] returns, its headers and its
    content type (and raises what [read] raises).  For a response not read
    before, the body is the whole stream: all chunks, in order.  For the
    response with status 200, body [b"ok"], header [X-Test: 1] and content
    type [text/plain], these are the four fields. *)
Theorem parse_response_fidelity (response : ClientResponse) (w : World) :
  fst (parse_response response w) =
    match read response with
    | Ok b => Ok {| status_code := status response;
                    body := b;
                    resp_headers := headers response;
                    resp_content_type := content_type response |}
    | Raise e => Raise e
    end /\
  (forall st chunks hs ct,
     fst (parse_response
            {| status := st; content := payload_of chunks; _body := None;
               headers := hs; content_type := ct |} w) =
     Ok {| status_code := st; body := concat chunks;
           resp_headers := hs; resp_content_type := ct |}) /\
  fst (parse_response raw_ok w) =
    Ok {| status_code := 200; body := [x6f; x6b];
          resp_headers := [("X-Test", "1")];
          resp_content_type := "text/plain" |}.
Proof.
  split; [|split].
  - unfold parse_response, bind. simpl. destruct (read response); reflexivity.
  - intros st chunks hs ct. unfold parse_response, bind, read. simpl.
    rewrite read_all_payload_of. reflexivity.
  - reflexivity.
Qed.

(** C9. On a holder on which [get_session] was never called (its
    reference is still the [None] of [__init__]), [close] and the scope
    exit return normally and change neither the store nor the holder, and
    [parse_response] gives what it gives on any holder: its outcome depends
    on the raw response alone and it leaves the store and the holder alone. *)
Theorem unallocated_holder_is_safe
    (kwargs : Kwargs) (hp : list ClientSession) (cc : list nat) (cs : list Call)
    (exc : option Exc) (response : ClientResponse) :
  close {| heap := hp; closed_connectors := cc;
           holder := __init__ kwargs; calls := cs |} =
    (Ok tt, {| heap := hp; closed_connectors := cc;
               holder := __init__ kwargs; calls := cs ++ [CallClose] |}) /\
  __aexit__ exc {| heap := hp; closed_connectors := cc;
                   holder := __init__ kwargs; calls := cs |} =
    (Ok tt, {| heap := hp; closed_connectors := cc;
               holder := __init__ kwargs; calls := cs ++ [CallClose] |}) /\
  same_store {| heap := hp; closed_connectors := cc;
                holder := __init__ kwargs; calls := cs |}
    (snd (parse_response response
            {| heap := hp; closed_connectors := cc;
               holder := __init__ kwargs; calls := cs |})) /\
  (forall w1 w2,
     fst (parse_response response w1) = fst (parse_response response w2)) /\
  (forall e,
     fst (parse_response response
            {| heap := hp; closed_connectors := cc;
               holder := __init__ kwargs; calls := cs |}) = Raise e ->
     read response = Raise e).
Proof.
  split; [reflexivity|]. split; [reflexivity|].
  unfold same_store, parse_response, bind. simpl.
  split; [destruct (read response); repeat split; reflexivity|].
  split.
  - intros w1 w2. destruct (read response); reflexivity.
  - intros e. destruct (read response); simpl; intros H; inversion H; reflexivity.
Qed.

(** ** Reallocation *)

Lemma get_session_on_closed (w : World) (l : loc) (s : ClientSession) :
  _session (holder w) = Some l ->
  heap w !! l = Some s ->
  closed w s = true ->
  accepts (_session_kwargs (holder w)) = true ->
  get_session accepts w =
    (Ok (Some (length (heap w))),
     {| heap := heap w ++ [ session_of (_session_kwargs (holder w)) ];
        closed_connectors := closed_connectors w;
        holder := {| _session := Some (length (heap w));
                     _session_kwargs := _session_kwargs (holder w) |};
        calls := calls w ++ [CallGetSession] |}).
Proof.
  intros Hl Hs Hc Hacc.
  destruct w as [hp cc [r kw] cs]. simpl in *. subst r. unfold_m.
  rewrite Hs. simpl. rewrite Hc. simpl. rewrite Hacc. reflexivity.
Qed.

(** C4. When the holder's current session has been closed, the next
    [get_session] (the transport accepting the current keyword arguments)
    allocates a session at an address no object had, built from the
    current [_session_kwargs], stores it in [_session] and returns it; it
    is not the closed session, which stays in the store as it was.  The new
    session is open unless the keyword arguments carry a connector that is
    closed. *)
Theorem get_session_reallocates (w : World) (l : loc) (s : ClientSession) :
  _session (holder w) = Some l ->
  heap w !! l = Some s ->
  closed w s = true ->
  accepts (_session_kwargs (holder w)) = true ->
  get_session accepts w =
    (Ok (Some (length (heap w))),
     {| heap := heap w ++ [ session_of (_session_kwargs (holder w)) ];
        closed_connectors := closed_connectors w;
        holder := {| _session := Some (length (heap w));
                     _session_kwargs := _session_kwargs (holder w) |};
        calls := calls w ++ [CallGetSession] |}) /\
  length (heap w) <> l /\
  heap w !! length (heap w) = None /\
  heap (snd (get_session accepts w)) !! l = Some s /\
  init_kwargs (session_of (_session_kwargs (holder w))) = _session_kwargs (holder w) /\
  (closed w (session_of (_session_kwargs (holder w))) = false ->
   live (length (heap w)) (snd (get_session accepts w))) /\
  (connector_arg (_session_kwargs (holder w)) = OwnConnector ->
   live (length (heap w)) (snd (get_session accepts w))).
Proof.
  intros Hl Hs Hc Hacc.
  assert (Hlt : l < length (heap w)) by (eapply lookup_lt_Some; eassumption).
  pose proof (get_session_on_closed w l s Hl Hs Hc Hacc) as Heq.
  rewrite Heq. simpl. split; [reflexivity|]. split; [lia|].
  split; [apply lookup_ge_None; lia|].
  split; [rewrite lookup_app_l by exact Hlt; exact Hs|].
  split; [reflexivity|].
  assert (Hlive : closed w (session_of (_session_kwargs (holder w))) = false ->
                  live (length (heap w))
                    {| heap := heap w ++ [ session_of (_session_kwargs (holder w)) ];
                       closed_connectors := closed_connectors w;
                       holder := {| _session := Some (length (heap w));
                                    _session_kwargs := _session_kwargs (holder w) |};
                       calls := calls w ++ [CallGetSession] |}).
  { intros Hopen. split; [reflexivity|]. simpl. eexists.
    split; [apply list_lookup_middle; reflexivity|exact Hopen]. }
  split; [exact Hlive|].
  intros Hown. apply Hlive. unfold closed, session_closed. simpl.
  rewrite Hown. reflexivity.
Qed.

(** ** [update_session_kwargs] *)

(** C6. [update_session_kwargs] returns normally; afterwards a key of the
    given mapping has the given value and every other key has the value it
    had; no object of the store, the holder's reference and the history are
    changed.  With an open session, [get_session] after the update still
    returns that session, unchanged; after a [close], [get_session] builds
    the new session from the merged keyword arguments, and the session
    closed keeps the keyword arguments it was built with. *)
Theorem update_session_kwargs_merges (kwargs : Kwargs) (w : World) :
  fst (update_session_kwargs kwargs w) = Ok tt /\
  (forall k,
     _session_kwargs (holder (snd (update_session_kwargs kwargs w))) !! k =
     match kwargs !! k with
     | Some v => Some v
     | None => _session_kwargs (holder w) !! k
     end) /\
  heap (snd (update_session_kwargs kwargs w)) = heap w /\
  _session (holder (snd (update_session_kwargs kwargs w))) = _session (holder w) /\
  calls (snd (update_session_kwargs kwargs w)) = calls w /\
  closed_connectors (snd (update_session_kwargs kwargs w)) = closed_connectors w /\
  (forall l s,
     _session (holder w) = Some l -> heap w !! l = Some s -> closed w s = false ->
     fst (get_session accepts (snd (update_session_kwargs kwargs w))) = Ok (Some l) /\
     heap (snd (get_session accepts (snd (update_session_kwargs kwargs w)))) = heap w) /\
  (forall l s,
     _session (holder w) = Some l -> heap w !! l = Some s -> closed w s = false ->
     accepts (kwargs ∪ _session_kwargs (holder w)) = true ->
     fst (get_session accepts (snd (close (snd (update_session_kwargs kwargs w))))) =
       Ok (Some (length (heap w))) /\
     heap (snd (get_session accepts (snd (close (snd (update_session_kwargs kwargs w))))))
       !! length (heap w) =
       Some (session_of (kwargs ∪ _session_kwargs (holder w))) /\
     init_kwargs (session_of (kwargs ∪ _session_kwargs (holder w))) =
       kwargs ∪ _session_kwargs (holder w) /\
     heap (snd (get_session accepts (snd (close (snd (update_session_kwargs kwargs w))))))
       !! l = Some (close_session s) /\
     init_kwargs (close_session s) = init_kwargs s).
Proof.
  split; [reflexivity|]. split.
  { intros k. simpl. rewrite lookup_union.
    destruct (kwargs !! k), (_session_kwargs (holder w) !! k); reflexivity. }
  split; [reflexivity|]. split; [reflexivity|]. split; [reflexivity|].
  split; [reflexivity|]. split.
  - intros l s Hl Hs Hc.
    assert (Hlive : live l (snd (update_session_kwargs kwargs w))).
    { split; [exact Hl|]. exists s. split; assumption. }
    rewrite (get_session_live l _ Hlive). split; reflexivity.
  - intros l s Hl Hs Hc Hacc.
    assert (Hlt : l < length (heap w)) by (eapply lookup_lt_Some; eassumption).
    rewrite (close_live l s (snd (update_session_kwargs kwargs w)) Hl Hs Hc). simpl.
    match goal with
    | |- context [get_session accepts ?w0] =>
        assert (Heq := get_session_on_closed w0 l (close_session s) Hl
                         (list_lookup_insert_eq _ _ _ Hlt) eq_refl Hacc)
    end.
    simpl in Heq. rewrite Heq. simpl. rewrite length_insert.
    split; [reflexivity|]. split; [|split; [reflexivity|split; [|reflexivity]]].
    + rewrite <- (length_insert (heap w) l (close_session s)).
      apply list_lookup_middle. reflexivity.
    + rewrite lookup_app_l by (rewrite length_insert; exact Hlt).
      apply list_lookup_insert_eq. exact Hlt.
Qed.

(** ** Scopes *)


(** C3. When the scope has been entered, the entry is a [get_session]
    whose session, now the holder's, is what the body receives; and however
    the body ends, with a value or with an exception, the exit calls
    [close] once on the world the body left, after which the scope returns
    the body's value or raises the body's exception.  The history of the
    scope's end is the body's history followed by exactly one [close]. *)
Theorem scope_closes_once {A : Type} (body : option loc -> M A)
    (w w1 w2 : World) (s : option loc) (r : Result A) :
  __aenter__ accepts w = (Ok s, w1) ->
  body s w1 = (r, w2) ->
  wf w2 ->
  get_session accepts w = (Ok s, w1) /\
  is_Some s /\
  _session (holder w1) = s /\
  exists w3,
    async_with accepts body w = (r, w3) /\
    __aexit__ (match r with Raise e => Some e | Ok _ => None end) w2 = (Ok tt, w3) /\
    close w2 = (Ok tt, w3) /\
    calls w3 = calls w2 ++ [CallClose] /\
    close_count (drop (length (calls w2)) (calls w3)) = 1 /\
    (phase w3 = Some Closed \/ phase w3 = Some Unallocated).
Proof.
  intros Henter Hbody Hwf.
  assert (Hget : get_session accepts w = (Ok s, w1))
    by (rewrite <- aenter_is_get_session; exact Henter).
  destruct (get_session_ok w w1 s Hget) as (l & -> & Hcur & _).
  split; [exact Hget|]. split; [eauto|]. split; [exact Hcur|].
  destruct (close_wf w2 Hwf) as (w3 & Hc & _ & Hcs & _ & _ & Hph).
  exists w3. unfold async_with. rewrite Henter, Hbody. unfold __aexit__.
  rewrite Hc. split; [destruct r; reflexivity|].
  split; [reflexivity|]. split; [reflexivity|]. split; [exact Hcs|].
  split; [|exact Hph].
  rewrite Hcs, drop_app_length. reflexivity.
Qed.


(** ** Well-formedness is an invariant *)

Lemma new_world_wf (kwargs : Kwargs) : wf (new_world kwargs).
Proof. exact I. Qed.

Lemma step_wf (o : Op) (w : World) : wf w -> wf (snd (step accepts o w)).
Proof.
  unfold wf. destruct o; simpl.
  - unfold_m. case_session w; rewrite ?Hl, ?Hc; try destruct (accepts kw); simpl;
      rewrite ?length_app; simpl; lia.
  - unfold_m. case_session w; rewrite ?Hl, ?Hc; simpl; rewrite ?length_insert; lia.
  - auto.
  - unfold_m. destruct (read response); auto.
  - unfold_m. case_session w; rewrite ?Hl, ?Hc; try destruct (accepts kw); simpl;
      rewrite ?length_app; simpl; lia.
  - unfold_m. case_session w; rewrite ?Hl, ?Hc; simpl; rewrite ?length_insert; lia.
  - unfold_m. destruct (heap w !! l) as [s|]; simpl; auto.
    destruct (session_closed (closed_connectors w) s); simpl;
      rewrite ?length_insert; auto.
  - auto.
Qed.

Lemma run_wf (ops : list Op) (w : World) : wf w -> wf (snd (run accepts ops w)).
Proof.
  revert w. induction ops as [|o ops IH]; intros w Hwf; simpl; [exact Hwf|].
  pose proof (step_wf o w Hwf) as H1.
  destruct (step accepts o w) as [r w1]. simpl in H1.
  specialize (IH w1 H1). destruct (run accepts ops w1) as [rs w2]. exact IH.
Qed.

End Properties.

(** * The theorems at concrete inputs *)

(** The end-to-end scenario: enter, get, parse, exit, enter again, get. *)
Example run_e2e :
  let '(rs, w) := run accept_all [OpEnter; OpGetSession; OpParse raw_ok; OpExit; OpEnter; OpGetSession] (new_world ∅) in
  sessions_of rs = [Ok (Some 0); Ok (Some 0); Ok (Some 1); Ok (Some 1)] /\
  (closed w <$> heap w) = [true; false] /\
  calls w = [CallGetSession; CallGetSession; CallParseResponse; CallClose; CallGetSession; CallGetSession].
Proof. vm_compute. auto. Qed.

(** C1, the claim as it stands.  The holder was constructed with a
    connector of the caller's and has been through one [get_session] and
    one [close], which closed the connector.  From then on, with no close
    in between, [get_session] returns the session at address 1 and, called
    again, the session at address 2: each call builds a session on the
    closed connector, finds it closed at the next call and builds
    another. *)
Lemma get_session_on_spent_connector :
  get_session accept_all spent_world = (Ok (Some 1), spent_got) /\
  forallb non_closing [OpGetSession] = true /\
  sessions_of (fst (run accept_all [OpGetSession] spent_got)) = [Ok (Some 2)] /\
  ~ Forall (fun x => x = Ok (Some 1))
      (sessions_of (fst (run accept_all [OpGetSession] spent_got))) /\
  phase spent_got = Some Closed.
Proof.
  split; [reflexivity|]. split; [reflexivity|]. split; [reflexivity|].
  split; [|reflexivity].
  intros H. vm_compute in H. inversion H as [|x rest Hx _]. discriminate Hx.
Qed.

Lemma get_session_reuse_witness :
  get_session accept_all (new_world ∅) = (Ok (Some 0), first_got) /\
  phase first_got = Some Active /\
  forallb non_closing quiet_ops = true /\
  Forall (fun x => x = Ok (Some 0))
    (sessions_of (fst (run accept_all quiet_ops first_got))) /\
  phase (snd (run accept_all quiet_ops first_got)) = Some Active.
Proof.
  split; [reflexivity|]. split; [reflexivity|]. split; [reflexivity|].
  destruct (get_session_reuse accept_all (new_world ∅) first_got (Some 0)
              quiet_ops eq_refl eq_refl eq_refl) as (_ & Hall & _ & _ & Hph).
  split; [exact Hall|exact Hph].
Defined.

Lemma wf_active_world : wf active_world.
Proof. exact (le_n 1). Defined.

(** C2, the claim as it stands: after zero calls an open session is still
    open, so the holder does not end Closed or Unallocated. *)
Lemma close_zero_times_leaves_active :
  wf active_world /\
  close_times 0 active_world = (Ok tt, active_world) /\
  phase (snd (close_times 0 active_world)) = Some Active /\
  ~ (phase (snd (close_times 0 active_world)) = Some Closed \/
     phase (snd (close_times 0 active_world)) = Some Unallocated).
Proof.
  split; [exact wf_active_world|]. split; [reflexivity|]. split; [reflexivity|].
  intros [H|H]; vm_compute in H; discriminate.
Qed.

Lemma close_times_safe_witness :
  wf active_world /\
  fst (close_times 3 active_world) = Ok tt /\
  calls (snd (close_times 3 active_world)) = [CallClose; CallClose; CallClose] /\
  (phase (snd (close_times 3 active_world)) = Some Closed \/
   phase (snd (close_times 3 active_world)) = Some Unallocated).
Proof.
  split; [exact wf_active_world|].
  destruct (close_times_safe 3 active_world wf_active_world) as (Hok & Hcs & _ & Hph).
  split; [exact Hok|]. split; [exact Hcs|].
  apply Hph. exact (le_S 1 2 (le_S 1 1 (le_n 1))).
Defined.

Lemma scope_closes_once_witness :
  __aenter__ accept_all (new_world ∅) = (Ok (Some 0), entered_world) /\
  raising_body (Some 0) entered_world = (Raise (CallerError 7), entered_world) /\
  wf entered_world /\
  exists w3,
    async_with accept_all raising_body (new_world ∅) = (Raise (CallerError 7), w3) /\
    close entered_world = (Ok tt, w3) /\
    calls w3 = calls entered_world ++ [CallClose].
Proof.
  split; [reflexivity|]. split; [reflexivity|]. split; [exact (le_n 1)|].
  destruct (scope_closes_once accept_all raising_body (new_world ∅) entered_world
              entered_world (Some 0) (Raise (CallerError 7)) eq_refl eq_refl (le_n 1))
    as (_ & _ & _ & w3 & Hrun & _ & Hclose & Hcs & _).
  exists w3. split; [exact Hrun|]. split; [exact Hclose|exact Hcs].
Defined.

Lemma get_session_reallocates_witness :
  (_session (holder closed_by_holder) = Some 0 /\
   heap closed_by_holder !! 0 = Some (close_session (session_of ∅)) /\
   closed closed_by_holder (close_session (session_of ∅)) = true /\
   accept_all (_session_kwargs (holder closed_by_holder)) = true /\
   fst (get_session accept_all closed_by_holder) = Ok (Some 1) /\
   live 1 (snd (get_session accept_all closed_by_holder))) /\
  (_session (holder closed_by_outsider) = Some 0 /\
   heap closed_by_outsider !! 0 = Some (close_session (session_of ∅)) /\
   closed closed_by_outsider (close_session (session_of ∅)) = true /\
   accept_all (_session_kwargs (holder closed_by_outsider)) = true /\
   fst (get_session accept_all closed_by_outsider) = Ok (Some 1) /\
   live 1 (snd (get_session accept_all closed_by_outsider))).
Proof.
  split.
  - split; [reflexivity|]. split; [reflexivity|]. split; [reflexivity|].
    split; [reflexivity|].
    destruct (get_session_reallocates accept_all closed_by_holder 0
                (close_session (session_of ∅)) eq_refl eq_refl eq_refl eq_refl)
      as (Heq & _ & _ & _ & _ & _ & Hlive).
    split; [exact (f_equal fst Heq)|exact (Hlive eq_refl)].
  - split; [reflexivity|]. split; [reflexivity|]. split; [reflexivity|].
    split; [reflexivity|].
    destruct (get_session_reallocates accept_all closed_by_outsider 0
                (close_session (session_of ∅)) eq_refl eq_refl eq_refl eq_refl)
      as (Heq & _ & _ & _ & _ & _ & Hlive).
    split; [exact (f_equal fst Heq)|exact (Hlive eq_refl)].
Defined.


Lemma update_session_kwargs_merges_witness :
  _session (holder active_world) = Some 0 /\
  heap active_world !! 0 = Some (session_of ∅) /\
  closed active_world (session_of ∅) = false /\
  accept_all (timeout_5 ∪ _session_kwargs (holder active_world)) = true /\
  _session_kwargs (holder (snd (update_session_kwargs timeout_5 active_world)))
    !! "timeout" = Some (VInt 5) /\
  fst (get_session accept_all (snd (update_session_kwargs timeout_5 active_world))) =
    Ok (Some 0) /\
  heap (snd (get_session accept_all (snd (update_session_kwargs timeout_5 active_world)))) =
    heap active_world /\
  heap (snd (get_session accept_all
               (snd (close (snd (update_session_kwargs timeout_5 active_world))))))
    !! 1 = Some (session_of (timeout_5 ∪ ∅)).
Proof.
  split; [reflexivity|]. split; [reflexivity|]. split; [reflexivity|].
  split; [reflexivity|].
  destruct (update_session_kwargs_merges accept_all timeout_5 active_world)
    as (_ & Hkey & _ & _ & _ & _ & Hlive & Hnew).
  split; [exact (Hkey "timeout")|].
  destruct (Hlive 0 (session_of ∅) eq_refl eq_refl eq_refl) as (Hsame & Hheap).
  split; [exact Hsame|]. split; [exact Hheap|].
  destruct (Hnew 0 (session_of ∅) eq_refl eq_refl eq_refl eq_refl)
    as (_ & Hfresh & _).
  exact Hfresh.
Defined.

Lemma working_order_decides_witness :
  (fst (_session_in_working_order active_world) = Ok true /\
   get_session accept_all active_world =
     (Ok (Some 0), snd (record CallGetSession active_world)) /\
   close active_world = native_close (Some 0) (snd (record CallClose active_world))) /\
  (fst (_session_in_working_order closed_world) = Ok false /\
   get_session accept_all closed_world =
     _instantiate_new_session accept_all (snd (record CallGetSession closed_world)) /\
   close closed_world = (Ok tt, snd (record CallClose closed_world))) /\
  (_session (holder (new_world ∅)) = None /\
   fst (_session_in_working_order (new_world ∅)) = Ok false) /\
  (wf closed_world /\
   exists b, _session_in_working_order closed_world = (Ok b, closed_world)).
Proof.
  split; [|split; [|split]].
  - split; [reflexivity|].
    destruct (working_order_decides accept_all active_world)
      as (_ & _ & _ & _ & Htrue & _).
    exact (Htrue eq_refl).
  - split; [reflexivity|].
    destruct (working_order_decides accept_all closed_world)
      as (_ & _ & _ & _ & _ & Hfalse).
    exact (Hfalse eq_refl).
  - split; [reflexivity|].
    destruct (working_order_decides accept_all (new_world ∅))
      as (_ & Hiff & _).
    exact (proj2 Hiff (or_introl eq_refl)).
  - split; [exact (le_n 1)|].
    destruct (working_order_decides accept_all closed_world)
      as (_ & _ & Htotal & _).
    exact (Htotal (le_n 1)).
Defined.

Lemma live_active_world : live 0 active_world.
Proof.
  split; [reflexivity|].
  exists (session_of ∅). split; reflexivity.
Defined.

Lemma close_keeps_reference_witness :
  live 0 active_world /\
  _session (holder (snd (close active_world))) = Some 0 /\
  phase (snd (close active_world)) = Some Closed /\
  (_session (holder (snd (step accept_all OpGetSession closed_world))) <>
     _session (holder closed_world) /\
   fst (_session_in_working_order closed_world) = Ok false /\
   _session (holder (snd (step accept_all OpGetSession closed_world))) = Some 1).
Proof.
  split; [exact live_active_world|].
  destruct (close_keeps_reference accept_all active_world) as (Hsame & Hclosed & _).
  split; [exact Hsame|].
  split; [exact (proj1 (Hclosed 0 live_active_world))|].
  assert (Hne : _session (holder (snd (step accept_all OpGetSession closed_world))) <>
                _session (holder closed_world)).
  { intros H. vm_compute in H. discriminate. }
  split; [exact Hne|].
  destruct (close_keeps_reference accept_all closed_world) as (_ & _ & Honly).
  destruct (Honly OpGetSession Hne) as (_ & Hfalse & Hnew).
  split; [exact Hfalse|exact Hnew].
Defined.

Lemma unallocated_holder_is_safe_witness :
  fst (parse_response raw_broken (new_world ∅)) = Raise ReadError /\
  read raw_broken = Raise ReadError /\
  close (new_world ∅) =
    (Ok tt, {| heap := []; closed_connectors := [];
               holder := __init__ ∅; calls := [CallClose] |}).
Proof.
  split; [reflexivity|].
  destruct (unallocated_holder_is_safe ∅ [] [] [] None raw_broken)
    as (Hclose & _ & _ & _ & Hread).
  split; [exact (Hread ReadError eq_refl)|exact Hclose].
Defined.

(** * Further properties of the holder *)

Section Footprint.

Variable accepts : Kwargs -> bool.

(** ** What one operation does *)

Lemma get_session_change (o : Op) (w : World) :
  non_closing o = true ->
  StoreChange o w (snd (get_session accepts w)).
Proof.
  intros Ho. unfold_m.
  case_session w; rewrite ?Hl, ?Hc; try destruct (accepts kw) eqn:Hacc; simpl;
    try (apply sc_unchanged; reflexivity);
    (apply sc_allocated; simpl; rewrite ?Hl; try reflexivity;
     [exact Ho|unfold phase, closed; simpl; rewrite ?Hl, ?Hc; discriminate]).
Qed.

Lemma close_change (o : Op) (w : World) :
  non_closing o = false -> is_external o = false ->
  StoreChange o w (snd (close w)).
Proof.
  intros Ho He. unfold_m.
  case_session w; rewrite ?Hl, ?Hc; simpl; try (apply sc_unchanged; reflexivity).
  eapply sc_closed; simpl; try reflexivity; try eassumption.
Qed.

Lemma step_change (o : Op) (w : World) :
  StoreChange o w (snd (step accepts o w)).
Proof.
  destruct o; simpl.
  - pose proof (get_session_change OpGetSession w eq_refl) as H.
    destruct (get_session accepts w); exact H.
  - pose proof (close_change OpClose w eq_refl eq_refl) as H.
    destruct (close w); exact H.
  - apply sc_unchanged; reflexivity.
  - unfold_m. destruct (read response); apply sc_unchanged; reflexivity.
  - rewrite aenter_is_get_session.
    pose proof (get_session_change OpEnter w eq_refl) as H.
    destruct (get_session accepts w); exact H.
  - unfold __aexit__. pose proof (close_change OpExit w eq_refl eq_refl) as H.
    destruct (close w); exact H.
  - unfold_m. destruct (heap w !! l) as [s|] eqn:Hs; simpl.
    + destruct (session_closed (closed_connectors w) s) eqn:Hc; simpl.
      * apply sc_unchanged; reflexivity.
      * eapply sc_closed; simpl; try reflexivity; try eassumption. discriminate.
    + apply sc_unchanged; reflexivity.
  - unfold_m. destruct (bool_decide (c ∈ closed_connectors w)) eqn:Hc; simpl.
    + apply sc_unchanged; reflexivity.
    + eapply sc_connector; reflexivity.
Qed.

Lemma step_kwargs (o : Op) (w : World) :
  _session_kwargs (holder (snd (step accepts o w))) =
  match o with
  | OpUpdate kwargs => kwargs ∪ _session_kwargs (holder w)
  | _ => _session_kwargs (holder w)
  end.
Proof.
  destruct o; simpl; try reflexivity.
  - unfold_m. case_session w; rewrite ?Hl, ?Hc; try destruct (accepts kw); reflexivity.
  - unfold_m. case_session w; rewrite ?Hl, ?Hc; reflexivity.
  - unfold_m. destruct (read response); reflexivity.
  - unfold_m. case_session w; rewrite ?Hl, ?Hc; try destruct (accepts kw); reflexivity.
  - unfold_m. case_session w; rewrite ?Hl, ?Hc; reflexivity.
  - unfold_m. destruct (heap w !! l) as [s|]; [|reflexivity].
    destruct (session_closed (closed_connectors w) s); reflexivity.
Qed.

(** Connectors are closed for good, and so are sessions. *)
Lemma change_connectors (o : Op) (w w' : World) (c : nat) :
  StoreChange o w w' -> c ∈ closed_connectors w -> c ∈ closed_connectors w'.
Proof.
  intros [_ _ Hc | _ _ _ _ Hc | l0 s0 _ _ _ _ _ Hc _ | c0 _ _ _ Hc] Hin;
    rewrite Hc; auto.
  - apply connectors_after_close_incl. exact Hin.
  - apply elem_of_cons. auto.
Qed.

Lemma change_closed (o : Op) (w w' : World) (s : ClientSession) :
  StoreChange o w w' -> closed w s = true -> closed w' s = true.
Proof.
  intros Hch. unfold closed. apply session_closed_mono.
  intros c. apply (change_connectors o w w' c Hch).
Qed.

(** ** Invariants of the store *)

Lemma new_world_no_stray (kwargs : Kwargs) : no_stray_open (new_world kwargs).
Proof. intros l s Hl. simpl in Hl. rewrite lookup_nil in Hl. discriminate. Qed.

Lemma change_no_stray (o : Op) (w w' : World) :
  StoreChange o w w' -> no_stray_open w -> no_stray_open w'.
Proof.
  intros Hch Hinv l s Hl Hc.
  assert (Hopen : closed w s = false).
  { destruct (closed w s) eqn:Hw; [|reflexivity].
    rewrite (change_closed o w w' s Hch Hw) in Hc. discriminate. }
  destruct Hch as [Hh Hs _ | _ Hph Hh Hhold _ | l0 s0 _ Hl0 _ _ Hh _ Hhold
                  | c0 _ Hh Hhold _].
  - rewrite Hs. rewrite Hh in Hl. eapply Hinv; eassumption.
  - rewrite Hh in Hl. apply lookup_app_Some in Hl as [Hl | [Hge Hl]].
    + exfalso. apply Hph. apply phase_active_live. exists l.
      split; [eapply Hinv; eassumption|]. eauto.
    + apply list_lookup_singleton_Some in Hl as [Hz _].
      rewrite Hhold. simpl. f_equal. lia.
  - rewrite Hh in Hl. rewrite Hhold.
    apply list_lookup_insert_Some in Hl as [(_ & <- & _) | (_ & Hl)].
    + discriminate.
    + eapply Hinv; eassumption.
  - rewrite Hhold. rewrite Hh in Hl. eapply Hinv; eassumption.
Qed.

Lemma run_no_stray (ops : list Op) (w : World) :
  no_stray_open w -> no_stray_open (snd (run accepts ops w)).
Proof.
  revert w. induction ops as [|o ops IH]; intros w Hinv; simpl; [exact Hinv|].
  pose proof (change_no_stray o w _ (step_change o w) Hinv) as H1.
  destruct (step accepts o w) as [r w1]. simpl in H1.
  specialize (IH w1 H1). destruct (run accepts ops w1) as [rs w2]. exact IH.
Qed.

(** X1. The holder never abandons an open session.  If every open session
    of the store is the holder's current one (as in a store without open
    sessions, and so for a new holder), this is still so after any sequence
    of operations, outside closures included: there is at most one open
    session, and it is the one [get_session] would return. *)
Theorem open_session_is_current (ops : list Op) (w : World)
    (l : loc) (s : ClientSession) :
  no_stray_open w ->
  heap (snd (run accepts ops w)) !! l = Some s ->
  closed (snd (run accepts ops w)) s = false ->
  _session (holder (snd (run accepts ops w))) = Some l /\
  (forall l' s', heap (snd (run accepts ops w)) !! l' = Some s' ->
                 closed (snd (run accepts ops w)) s' = false -> l' = l).
Proof.
  intros Hinv Hl Hc. pose proof (run_no_stray ops w Hinv) as H.
  split; [eapply H; eassumption|].
  intros l' s' Hl' Hc'. pose proof (H l s Hl Hc) as H1.
  pose proof (H l' s' Hl' Hc') as H2. congruence.
Qed.

(** X2. Closing the holder releases everything: after any sequence of
    operations, one [close] returns normally and leaves no open session in
    the store, whichever sessions the holder allocated on the way. *)
Theorem close_releases_everything (ops : list Op) (w : World) :
  no_stray_open w ->
  wf w ->
  fst (close (snd (run accepts ops w))) = Ok tt /\
  forall l s,
    heap (snd (close (snd (run accepts ops w)))) !! l = Some s ->
    closed (snd (close (snd (run accepts ops w)))) s = true.
Proof.
  intros Hinv Hwf.
  pose proof (run_no_stray ops w Hinv) as H1.
  pose proof (run_wf accepts ops w Hwf) as Hwf1.
  destruct (close_wf _ Hwf1) as (w2 & Hc & _ & _ & _ & _ & Hph).
  rewrite Hc. simpl. split; [reflexivity|].
  pose proof (close_change OpClose (snd (run accepts ops w)) eq_refl eq_refl) as Hch.
  rewrite Hc in Hch. simpl in Hch.
  pose proof (change_no_stray _ _ _ Hch H1) as H2.
  intros l s Hl. destruct (closed w2 s) eqn:Hcl; [reflexivity|]. exfalso.
  assert (Hact : phase w2 = Some Active).
  { apply phase_active_live. exists l. split; [eapply H2; eassumption|]. eauto. }
  destruct Hph as [Hph|Hph]; congruence.
Qed.

(** ** How many sessions are allocated *)

Lemma idle_le (w : World) : idle w <= 1.
Proof. unfold idle. destruct (phase w) as [[| |]|]; lia. Qed.

Lemma connector_arg_union (k1 k2 : Kwargs) :
  connector_arg k1 = OwnConnector -> connector_arg k2 = OwnConnector ->
  connector_arg (k1 ∪ k2) = OwnConnector.
Proof.
  unfold connector_arg. rewrite lookup_union.
  destruct (k1 !! "connector") as [v1|], (k2 !! "connector") as [v2|]; simpl; auto.
Qed.

Lemma step_own_connector (o : Op) (w : World) :
  connector_arg (_session_kwargs (holder w)) = OwnConnector ->
  brings_connector o = false ->
  connector_arg (_session_kwargs (holder (snd (step accepts o w)))) = OwnConnector.
Proof.
  intros Hown Ho. rewrite step_kwargs. destruct o; try exact Hown.
  simpl in Ho. apply connector_arg_union; [|exact Hown].
  destruct (connector_arg kwargs); [reflexivity|discriminate].
Qed.

Lemma change_potential (o : Op) (w w' : World) :
  StoreChange o w w' ->
  length (heap w) <= length (heap w') /\
  (connector_arg (_session_kwargs (holder w)) = OwnConnector ->
   length (heap w') + idle w' <=
     length (heap w) + idle w + (if non_closing o then 0 else 1)).
Proof.
  intros [Hh Hs Hc | Ho Hph Hh Hhold Hc | l0 s0 Ho Hl0 _ _ Hh _ Hhold
         | c0 Ho Hh Hhold _].
  - unfold idle. rewrite (phase_ext w w' Hh Hs Hc), Hh. lia.
  - rewrite Ho, Hh, length_app. simpl. split; [lia|]. intros Hown.
    assert (Hw' : idle w' = 0).
    { unfold idle, phase, closed. rewrite Hhold, Hh, Hc. simpl.
      rewrite list_lookup_middle by reflexivity.
      unfold session_closed. simpl. rewrite Hown. reflexivity. }
    assert (Hw : idle w = 1).
    { unfold idle. destruct (phase w) as [[| |]|]; try reflexivity.
      exfalso. apply Hph. reflexivity. }
    lia.
  - rewrite Ho, Hh, length_insert. pose proof (idle_le w'). lia.
  - subst o. simpl. rewrite Hh. pose proof (idle_le w'). lia.
Qed.

Lemma run_potential (ops : list Op) (w : World) :
  length (heap w) <= length (heap (snd (run accepts ops w))) /\
  (connector_arg (_session_kwargs (holder w)) = OwnConnector ->
   forallb (fun o => negb (brings_connector o)) ops = true ->
   length (heap (snd (run accepts ops w))) + idle (snd (run accepts ops w)) <=
     length (heap w) + idle w + closures ops).
Proof.
  revert w. induction ops as [|o ops IH]; intros w; simpl;
    [unfold closures; simpl; lia|].
  pose proof (change_potential o w _ (step_change o w)) as [H1 H2].
  pose proof (step_own_connector o w) as H3.
  destruct (step accepts o w) as [r w1]. simpl in H1, H2, H3.
  destruct (IH w1) as [IH1 IH2]. destruct (run accepts ops w1) as [rs w2].
  simpl in *. split; [lia|]. intros Hown Hq.
  apply andb_prop in Hq as [Ho Hq]. apply negb_true_iff in Ho.
  specialize (H2 Hown). specialize (IH2 (H3 Hown Ho) Hq).
  unfold closures in *. simpl. destruct (non_closing o); simpl; lia.
Qed.

(** X3. A holder that makes its own connectors allocates only when a
    session was closed.  Over any sequence of operations the store never
    loses a session; and when neither the stored keyword arguments nor an
    update carry a connector of the caller's, the number of sessions
    allocated is at most the number of closing operations of the sequence
    (plus one when the holder had no open session at the start).  Without
    closing operations such a holder allocates at most once. *)
Theorem allocations_bounded (ops : list Op) (w : World) :
  length (heap w) <= length (heap (snd (run accepts ops w))) /\
  (connector_arg (_session_kwargs (holder w)) = OwnConnector ->
   forallb (fun o => negb (brings_connector o)) ops = true ->
   length (heap (snd (run accepts ops w))) <= length (heap w) + closures ops + 1 /\
   (phase w = Some Active ->
    length (heap (snd (run accepts ops w))) <= length (heap w) + closures ops)).
Proof.
  destruct (run_potential ops w) as [H1 H2]. pose proof (idle_le w) as H3.
  split; [exact H1|]. intros Hown Hq. specialize (H2 Hown Hq).
  split; [lia|].
  intros Hact. unfold idle in H2 at 2. rewrite Hact in H2. lia.
Qed.

(** ** What happens to a session *)

Lemma change_persist (o : Op) (w w' : World) (l : loc) (s : ClientSession) :
  StoreChange o w w' ->
  heap w !! l = Some s ->
  exists s', heap w' !! l = Some s' /\
             init_kwargs s' = init_kwargs s /\
             (closed w s = true -> s' = s /\ closed w' s' = true).
Proof.
  intros Hch Hl. pose proof (change_closed o w w' s Hch) as Hmono.
  destruct Hch as [Hh _ _ | _ _ Hh _ _ | l0 s0 _ Hl0 Hc0 _ Hh _ _ | c0 _ Hh _ _].
  - exists s. rewrite Hh. auto.
  - exists s. rewrite Hh. split; [|auto].
    rewrite lookup_app_l by (eapply lookup_lt_Some; eassumption). exact Hl.
  - rewrite Hh. destruct (decide (l0 = l)) as [->|Hne].
    + exists (close_session s0).
      rewrite list_lookup_insert_eq by (eapply lookup_lt_Some; eassumption).
      assert (s0 = s) by congruence. subst s0. split; [reflexivity|].
      split; [reflexivity|]. intros Hc. congruence.
    + exists s. rewrite list_lookup_insert_ne by exact Hne. auto.
  - exists s. rewrite Hh. auto.
Qed.

Lemma run_persist (ops : list Op) (w : World) (l : loc) (s : ClientSession) :
  heap w !! l = Some s ->
  exists s', heap (snd (run accepts ops w)) !! l = Some s' /\
             init_kwargs s' = init_kwargs s /\
             (closed w s = true ->
              s' = s /\ closed (snd (run accepts ops w)) s' = true).
Proof.
  revert w s. induction ops as [|o ops IH]; intros w s Hl; simpl.
  - exists s. auto.
  - destruct (change_persist o w _ l s (step_change o w) Hl)
      as (s1 & Hl1 & Hk1 & Hc1).
    destruct (step accepts o w) as [r w1]. simpl in Hl1, Hc1.
    destruct (IH w1 s1 Hl1) as (s2 & Hl2 & Hk2 & Hc2).
    destruct (run accepts ops w1) as [rs w2]. simpl in *.
    exists s2. split; [exact Hl2|]. split; [congruence|].
    intros Hc. destruct (Hc1 Hc) as [-> Hc1']. auto.
Qed.

(** X4. A session object is for ever: over any sequence of operations a
    session stays at its address with the keyword arguments it was built
    with, and once closed it stays closed and is not changed at all. *)
Theorem sessions_persist (ops : list Op) (w : World) (l : loc) (s : ClientSession) :
  heap w !! l = Some s ->
  exists s', heap (snd (run accepts ops w)) !! l = Some s' /\
             init_kwargs s' = init_kwargs s /\
             (closed w s = true ->
              s' = s /\ closed (snd (run accepts ops w)) s' = true).
Proof. apply run_persist. Qed.

(** X5. The holder's methods touch no session object but the holder's
    own: a session that is not the one the holder refers to keeps its
    attributes through [get_session], [close], [update_session_kwargs],
    [parse_response] and through entering or leaving a scope.  Its
    closed-flag can still change, in one way only: the session is built on
    the same connector of the caller's as the holder's current session,
    which owns that connector and closes it in [close] or at a scope exit. *)
Theorem other_sessions_untouched (o : Op) (w : World) (l : loc) (s : ClientSession) :
  is_external o = false ->
  _session (holder w) <> Some l ->
  heap w !! l = Some s ->
  heap (snd (step accepts o w)) !! l = Some s /\
  (closed (snd (step accepts o w)) s = closed w s \/
   exists cur sc c,
     _session (holder w) = Some cur /\ heap w !! cur = Some sc /\
     closed w sc = false /\
     _connector sc = Some (GivenConnector c) /\ _connector_owner sc = true /\
     _connector s = Some (GivenConnector c) /\
     closed w s = false /\ closed (snd (step accepts o w)) s = true /\
     non_closing o = false).
Proof.
  intros He Hne Hl.
  destruct (step_change o w) as [Hh Hs Hc | _ _ Hh _ Hc
                                | l0 s0 Ho Hl0 Hc0 Hcur Hh Hc Hhold | c0 Ho _ _ _].
  - rewrite Hh. split; [exact Hl|]. left. apply closed_ext. exact Hc.
  - rewrite Hh, lookup_app_l by (eapply lookup_lt_Some; eassumption).
    split; [exact Hl|]. left. apply closed_ext. exact Hc.
  - specialize (Hcur He). rewrite Hh.
    rewrite list_lookup_insert_ne by congruence. split; [exact Hl|].
    unfold closed in *. rewrite Hc. unfold connectors_after_close.
    destruct (_connector s0) as [[|c]|] eqn:Hcon0; auto.
    destruct (_connector_owner s0) eqn:Hown; auto.
    destruct (_connector s) as [[|c']|] eqn:Hcon;
      try (left; unfold session_closed; rewrite Hcon; reflexivity).
    assert (Hnew : session_closed (c :: closed_connectors w) s =
                   bool_decide (c' ∈ c :: closed_connectors w))
      by (unfold session_closed; rewrite Hcon; reflexivity).
    assert (Hold : session_closed (closed_connectors w) s =
                   bool_decide (c' ∈ closed_connectors w))
      by (unfold session_closed; rewrite Hcon; reflexivity).
    rewrite Hnew, Hold.
    destruct (decide (c' = c)) as [->|Hcc].
    + destruct (bool_decide (c ∈ closed_connectors w)) eqn:Hin.
      * left. apply bool_decide_eq_true. apply elem_of_cons. auto.
      * right. exists l0, s0, c.
        repeat split; auto.
        apply bool_decide_eq_true. apply elem_of_cons. auto.
    + left. apply bool_decide_ext. rewrite elem_of_cons. intuition congruence.
  - subst o. discriminate He.
Qed.

(** ** The stored configuration *)

Lemma run_kwargs_same (ops : list Op) (w : World) :
  forallb (fun o => negb (is_update o)) ops = true ->
  _session_kwargs (holder (snd (run accepts ops w))) = _session_kwargs (holder w).
Proof.
  revert w. induction ops as [|o ops IH]; intros w Hq; simpl; [reflexivity|].
  simpl in Hq. apply andb_prop in Hq as [Ho Hq].
  pose proof (step_kwargs o w) as H1.
  destruct (step accepts o w) as [r w1]. simpl in H1.
  specialize (IH w1 Hq). destruct (run accepts ops w1) as [rs w2]. simpl in *.
  rewrite IH, H1. destruct o; try reflexivity. discriminate.
Qed.

Lemma run_kwargs_keys (ops : list Op) (w : World) (k : string) :
  is_Some (_session_kwargs (holder w) !! k) ->
  is_Some (_session_kwargs (holder (snd (run accepts ops w))) !! k).
Proof.
  revert w. induction ops as [|o ops IH]; intros w Hk; simpl; [exact Hk|].
  pose proof (step_kwargs o w) as H1.
  destruct (step accepts o w) as [r w1]. simpl in H1.
  assert (Hk1 : is_Some (_session_kwargs (holder w1) !! k)).
  { rewrite H1. destruct o; try exact Hk.
    rewrite lookup_union. destruct Hk as [v ->].
    destruct (kwargs !! k); simpl; eauto. }
  specialize (IH w1 Hk1). destruct (run accepts ops w1) as [rs w2]. exact IH.
Qed.

(** X6. The stored keyword arguments change through
    [update_session_kwargs] alone: a sequence of operations without it
    leaves them as they are; and whatever the sequence, no key is ever
    removed from them. *)
Theorem config_only_grows (ops : list Op) (w : World) :
  (forallb (fun o => negb (is_update o)) ops = true ->
   _session_kwargs (holder (snd (run accepts ops w))) = _session_kwargs (holder w)) /\
  (forall k,
     is_Some (_session_kwargs (holder w) !! k) ->
     is_Some (_session_kwargs (holder (snd (run accepts ops w))) !! k)).
Proof.
  split; [apply run_kwargs_same|]. intros k. apply run_kwargs_keys.
Qed.

End Footprint.

Section Composition.

Variable accepts : Kwargs -> bool.

(** ** When [get_session] fails *)

Lemma get_session_idle (w : World) :
  wf w ->
  phase w <> Some Active ->
  get_session accepts w =
  if accepts (_session_kwargs (holder w))
  then (Ok (Some (length (heap w))),
        {| heap := heap w ++ [ session_of (_session_kwargs (holder w)) ];
           closed_connectors := closed_connectors w;
           holder := {| _session := Some (length (heap w));
                        _session_kwargs := _session_kwargs (holder w) |};
           calls := calls w ++ [CallGetSession] |})
  else (Raise AllocationError, snd (record CallGetSession w)).
Proof.
  unfold wf, phase. unfold_m. case_session w; rewrite ?Hl, ?Hc; intros Hwf Hph.
  - destruct (accepts kw); reflexivity.
  - exfalso. apply Hph. reflexivity.
  - exfalso. apply lookup_ge_None_1 in Hl. lia.
  - destruct (accepts kw); reflexivity.
Qed.

Lemma wf_active_or_idle (w : World) :
  wf w -> (exists l, live l w) \/ phase w <> Some Active.
Proof.
  intros Hwf. destruct (wf_phase w Hwf) as [[| |] Hp].
  - right. congruence.
  - left. apply phase_active_live. exact Hp.
  - right. congruence.
Qed.

(** X7. [get_session] fails in one way only.  On a holder that refers to
    an existing object it raises exactly when there is no open session to
    reuse and the transport rejects the stored keyword arguments; the
    exception is the constructor's, and the store and the holder are left
    as they were. *)
Theorem get_session_fails_iff (w : World) :
  wf w ->
  (fst (get_session accepts w) = Raise AllocationError <->
   phase w <> Some Active /\ accepts (_session_kwargs (holder w)) = false) /\
  (forall e,
     fst (get_session accepts w) = Raise e ->
     e = AllocationError /\ same_store w (snd (get_session accepts w))).
Proof.
  intros Hwf. destruct (wf_active_or_idle w Hwf) as [[l Hl] | Hidle].
  - rewrite (get_session_live accepts l w Hl). simpl.
    pose proof (live_phase l w Hl) as Hp. split.
    + split; [discriminate|]. intros [Hn _]. contradiction.
    + intros e He. discriminate.
  - rewrite (get_session_idle w Hwf Hidle).
    destruct (accepts (_session_kwargs (holder w))); simpl; split.
    + split; [discriminate|]. intros [_ Hf]. discriminate.
    + intros e He. discriminate.
    + split; auto.
    + intros e He. inversion He. split; [reflexivity|]. repeat split; reflexivity.
Qed.

Lemma run_get_session_rejected (n : nat) (w : World) :
  wf w ->
  phase w <> Some Active ->
  accepts (_session_kwargs (holder w)) = false ->
  Forall (fun x => x = Raise AllocationError)
    (sessions_of (fst (run accepts (replicate n OpGetSession) w))) /\
  same_store w (snd (run accepts (replicate n OpGetSession) w)).
Proof.
  revert w. induction n as [|n IH]; intros w Hwf Hph Hacc; simpl.
  - split; [constructor|]. repeat split; reflexivity.
  - pose proof (get_session_idle w Hwf Hph) as Hg. rewrite Hacc in Hg.
    rewrite Hg.
    destruct (IH (snd (record CallGetSession w)) Hwf Hph Hacc)
      as (Hall & Hh & Hhold & Hcc).
    destruct (run accepts (replicate n OpGetSession) (snd (record CallGetSession w)))
      as [rs w2]. simpl in *.
    split; [constructor; [reflexivity|exact Hall]|]. repeat split; assumption.
Qed.

(** X8. A bad configuration goes unnoticed while the session lives.
    [update_session_kwargs] accepts keyword arguments that the transport
    rejects, and [get_session] keeps returning the open session; only
    after a [close] does every [get_session] raise, however often it is
    tried, and the holder stays Closed on its old session. *)
Theorem misconfiguration_is_latent (kwargs : Kwargs) (w : World) (l : loc) (n : nat) :
  live l w ->
  accepts (kwargs ∪ _session_kwargs (holder w)) = false ->
  fst (update_session_kwargs kwargs w) = Ok tt /\
  fst (get_session accepts (snd (update_session_kwargs kwargs w))) = Ok (Some l) /\
  fst (close (snd (update_session_kwargs kwargs w))) = Ok tt /\
  Forall (fun x => x = Raise AllocationError)
    (sessions_of (fst (run accepts (replicate n OpGetSession)
                         (snd (close (snd (update_session_kwargs kwargs w))))))) /\
  _session (holder (snd (run accepts (replicate n OpGetSession)
                           (snd (close (snd (update_session_kwargs kwargs w))))))) =
    Some l /\
  phase (snd (run accepts (replicate n OpGetSession)
                (snd (close (snd (update_session_kwargs kwargs w)))))) = Some Closed.
Proof.
  intros Hlive Hacc. split; [reflexivity|].
  assert (Hlive1 : live l (snd (update_session_kwargs kwargs w))) by exact Hlive.
  rewrite (get_session_live accepts l _ Hlive1). split; [reflexivity|].
  destruct Hlive as (Hl & s & Hs & Hc).
  rewrite (close_live l s (snd (update_session_kwargs kwargs w)) Hl Hs Hc).
  split; [reflexivity|]. simpl.
  assert (Hlt : l < length (heap w)) by (eapply lookup_lt_Some; eassumption).
  match goal with
  | |- context [run accepts _ ?w0] =>
      assert (Hph : phase w0 = Some Closed)
        by (unfold phase; simpl; rewrite Hl;
            rewrite list_lookup_insert_eq by exact Hlt; reflexivity);
      assert (Hwf : wf w0) by (eapply phase_wf; exact Hph);
      destruct (run_get_session_rejected n w0 Hwf) as (Hall & Hh & Hhold & Hcc);
        [congruence | exact Hacc | ]
  end.
  split; [exact Hall|]. split.
  - rewrite Hhold. exact Hl.
  - rewrite (phase_ext _ _ Hh (f_equal _session Hhold) Hcc). exact Hph.
Qed.

(** X9. A failed allocation can be repaired.  When [get_session] has
    raised because the transport rejects the stored keyword arguments, an
    [update_session_kwargs] that makes them acceptable is enough: the next
    [get_session] returns a new session built from the merged keyword
    arguments.  That session is open, and the holder Active, unless the
    merged keyword arguments carry a connector that is closed; it is open
    in any case when they carry no connector of the caller's. *)
Theorem failed_get_session_recovers (kwargs : Kwargs) (w : World) :
  wf w ->
  phase w <> Some Active ->
  accepts (_session_kwargs (holder w)) = false ->
  accepts (kwargs ∪ _session_kwargs (holder w)) = true ->
  fst (get_session accepts w) = Raise AllocationError /\
  fst (get_session accepts
         (snd (update_session_kwargs kwargs (snd (get_session accepts w))))) =
    Ok (Some (length (heap w))) /\
  heap (snd (get_session accepts
               (snd (update_session_kwargs kwargs (snd (get_session accepts w))))))
    !! length (heap w) =
    Some (session_of (kwargs ∪ _session_kwargs (holder w))) /\
  phase (snd (get_session accepts
                (snd (update_session_kwargs kwargs (snd (get_session accepts w)))))) =
    Some (if closed w (session_of (kwargs ∪ _session_kwargs (holder w)))
          then Closed else Active) /\
  (connector_arg (kwargs ∪ _session_kwargs (holder w)) = OwnConnector ->
   phase (snd (get_session accepts
                 (snd (update_session_kwargs kwargs (snd (get_session accepts w)))))) =
     Some Active).
Proof.
  intros Hwf Hph Hrej Hacc.
  pose proof (get_session_idle w Hwf Hph) as Hg. rewrite Hrej in Hg.
  rewrite Hg. simpl. split; [reflexivity|].
  match goal with
  | |- context [get_session accepts ?w0] =>
      assert (Hwf0 : wf w0) by exact Hwf;
      assert (Hph0 : phase w0 <> Some Active) by exact Hph;
      pose proof (get_session_idle w0 Hwf0 Hph0) as Hg0
  end.
  simpl in Hg0. rewrite Hacc in Hg0. rewrite Hg0. simpl.
  split; [reflexivity|].
  split; [apply list_lookup_middle; reflexivity|].
  assert (Hphase : forall b,
            closed w (session_of (kwargs ∪ _session_kwargs (holder w))) = b ->
            phase
              {| heap := heap w ++ [session_of (kwargs ∪ _session_kwargs (holder w))];
                 closed_connectors := closed_connectors w;
                 holder := {| _session := Some (length (heap w));
                              _session_kwargs := kwargs ∪ _session_kwargs (holder w) |};
                 calls := (calls w ++ [CallGetSession]) ++ [CallGetSession] |} =
            Some (if b then Closed else Active)).
  { intros b Hb. unfold phase. simpl. rewrite list_lookup_middle by reflexivity.
    unfold closed in *. simpl. rewrite Hb. reflexivity. }
  split; [apply Hphase; reflexivity|].
  intros Hown. apply (Hphase false). unfold closed, session_closed. simpl.
  rewrite Hown. reflexivity.
Qed.

(** ** [update_session_kwargs], composed *)

(** X10. Updates compose like dictionary updates: two updates in a row
    are one update with the second mapping laid over the first; repeating
    an update changes nothing more; an update with no keyword changes
    nothing at all. *)
Theorem update_session_kwargs_compose (k1 k2 : Kwargs) (w : World) :
  update_session_kwargs k2 (snd (update_session_kwargs k1 w)) =
    update_session_kwargs (k2 ∪ k1) w /\
  update_session_kwargs k1 (snd (update_session_kwargs k1 w)) =
    update_session_kwargs k1 w /\
  update_session_kwargs ∅ w = (Ok tt, w).
Proof.
  unfold update_session_kwargs. simpl. split; [|split].
  - rewrite (assoc_L (∪)). reflexivity.
  - rewrite (assoc_L (∪)), (idemp_L (∪)). reflexivity.
  - destruct w as [hp cc [r kw] cs]. simpl. rewrite (left_id_L ∅ (∪)). reflexivity.
Qed.

(** ** Scopes, composed *)

Lemma forallb_quiet (ops : list Op) :
  forallb quiet ops = true ->
  forallb non_closing ops = true /\
  forallb (fun o => negb (is_update o)) ops = true.
Proof.
  induction ops as [|o ops IH]; simpl; [auto|].
  intros H. apply andb_prop in H as [Ho H]. unfold quiet in Ho.
  apply andb_prop in Ho as [H1 H2]. destruct (IH H) as [IH1 IH2].
  rewrite H1, H2, IH1, IH2. auto.
Qed.

Lemma close_persist (w : World) (l : loc) (s : ClientSession) :
  heap w !! l = Some s -> closed w s = true ->
  heap (snd (close w)) !! l = Some s /\ closed (snd (close w)) s = true.
Proof.
  intros Hl Hc.
  destruct (change_persist OpClose w _ l s (close_change OpClose w eq_refl eq_refl) Hl)
    as (s' & Hl' & _ & Hsame).
  destruct (Hsame Hc) as [-> Hc']. auto.
Qed.

Lemma get_session_persist (w : World) (l : loc) (s : ClientSession) :
  heap w !! l = Some s -> closed w s = true ->
  heap (snd (get_session accepts w)) !! l = Some s /\
  closed (snd (get_session accepts w)) s = true.
Proof.
  intros Hl Hc.
  destruct (change_persist OpGetSession w _ l s
              (get_session_change accepts OpGetSession w eq_refl) Hl)
    as (s' & Hl' & _ & Hsame).
  destruct (Hsame Hc) as [-> Hc']. auto.
Qed.

Lemma close_closes_current (w : World) (l : loc) :
  wf w -> _session (holder w) = Some l ->
  exists s, heap (snd (close w)) !! l = Some s /\ closed (snd (close w)) s = true.
Proof.
  intros Hwf Hcur. unfold wf in Hwf. rewrite Hcur in Hwf.
  destruct (lookup_lt_is_Some_2 _ _ Hwf) as [s Hs].
  destruct (closed w s) eqn:Hc.
  - exists s. apply close_persist; assumption.
  - rewrite (close_live l s w Hcur Hs Hc). simpl. exists (close_session s).
    split; [apply list_lookup_insert_eq; exact Hwf|reflexivity].
Qed.

Lemma get_session_succeeds (w : World) :
  wf w ->
  accepts (_session_kwargs (holder w)) = true ->
  exists l w1,
    get_session accepts w = (Ok (Some l), w1) /\
    _session (holder w1) = Some l /\
    l < length (heap w1) /\
    _session_kwargs (holder w1) = _session_kwargs (holder w) /\
    (phase w <> Some Active -> l = length (heap w)).
Proof.
  intros Hwf Hacc. destruct (wf_active_or_idle w Hwf) as [[l Hl] | Hidle].
  - exists l. eexists. rewrite (get_session_live accepts l w Hl).
    split; [reflexivity|]. simpl. split; [apply Hl|].
    split; [destruct Hl as (_ & s & Hs & _); eapply lookup_lt_Some; exact Hs|].
    split; [reflexivity|].
    intros Hn. exfalso. apply Hn. eapply live_phase. exact Hl.
  - exists (length (heap w)). eexists. rewrite (get_session_idle w Hwf Hidle), Hacc.
    split; [reflexivity|]. simpl. split; [reflexivity|].
    split; [rewrite length_app; simpl; lia|]. split; [reflexivity|auto].
Qed.

(** A scope with a quiet body on a holder whose keyword arguments the
    transport accepts: it ends normally; the session it worked on is closed
    at the end, and so is the holder; sessions closed before stay as they
    were. *)
Lemma scope_quiet (ops : list Op) (w : World) :
  wf w ->
  accepts (_session_kwargs (holder w)) = true ->
  forallb quiet ops = true ->
  exists l w3 s,
    async_with accepts (ops_body accepts ops) w = (Ok (Some l), w3) /\
    heap w3 !! l = Some s /\ closed w3 s = true /\
    wf w3 /\ phase w3 <> Some Active /\
    _session_kwargs (holder w3) = _session_kwargs (holder w) /\
    (phase w <> Some Active -> l = length (heap w)) /\
    (forall l' s', heap w !! l' = Some s' -> closed w s' = true ->
                   heap w3 !! l' = Some s' /\ closed w3 s' = true).
Proof.
  intros Hwf Hacc Hq. destruct (forallb_quiet ops Hq) as [Hnc Hnu].
  destruct (get_session_succeeds w Hwf Hacc) as (l & w1 & Hget & Hcur & Hlt & Hk1 & Hfresh).
  assert (Hwf1 : wf w1) by (unfold wf; rewrite Hcur; exact Hlt).
  pose proof (run_wf accepts ops w1 Hwf1) as Hwf2.
  pose proof (run_kwargs_same accepts ops w1 Hnu) as Hk2.
  destruct (close_wf _ Hwf2) as (w3 & Hclose & Hhold3 & _ & _ & _ & Hph3).
  assert (Hrun : async_with accepts (ops_body accepts ops) w = (Ok (Some l), w3)).
  { unfold async_with. rewrite aenter_is_get_session, Hget.
    unfold ops_body at 1. unfold __aexit__. rewrite Hclose. reflexivity. }
  assert (Hw3 : snd (close (snd (run accepts ops w1))) = w3) by (rewrite Hclose; reflexivity).
  assert (Hpers : forall l' s', heap w1 !! l' = Some s' -> closed w1 s' = true ->
                                heap w3 !! l' = Some s' /\ closed w3 s' = true).
  { intros l' s' Hl' Hc'.
    destruct (run_persist accepts ops w1 l' s' Hl') as (s2 & Hl2 & _ & Hsame).
    destruct (Hsame Hc') as [-> Hc2]. rewrite <- Hw3.
    apply close_persist; assumption. }
  destruct (lookup_lt_is_Some_2 _ _ Hlt) as [s1 Hs1].
  assert (Hclosed : exists s, heap w3 !! l = Some s /\ closed w3 s = true).
  { destruct (closed w1 s1) eqn:Hc1.
    - exists s1. apply Hpers; assumption.
    - assert (Hlive : live l w1) by (split; [exact Hcur|eauto]).
      destruct (run_non_closing accepts l ops w1 Hlive Hnc) as (_ & (Hcur2 & _) & _).
      rewrite <- Hw3. apply close_closes_current; assumption. }
  destruct Hclosed as (s & Hs & Hc).
  exists l, w3, s. split; [exact Hrun|]. split; [exact Hs|]. split; [exact Hc|].
  split; [destruct Hph3 as [H|H]; eapply phase_wf; exact H|].
  split; [destruct Hph3 as [-> | ->]; discriminate|].
  split; [rewrite Hhold3; congruence|]. split; [exact Hfresh|].
  intros l' s' Hl' Hc'.
  pose proof (get_session_persist w l' s' Hl' Hc') as Hp. rewrite Hget in Hp.
  simpl in Hp. destruct Hp as [Hl1 Hc1]. apply Hpers; assumption.
Qed.

(** A scope entered on an open session, with a quiet body: it gives that
    session to the body and closes it at the end. *)
Lemma scope_on_live (ops : list Op) (w : World) (l : loc) :
  live l w ->
  forallb quiet ops = true ->
  exists w3 s,
    async_with accepts (ops_body accepts ops) w = (Ok (Some l), w3) /\
    heap w3 !! l = Some s /\ closed w3 s = true /\
    _session (holder w3) = Some l.
Proof.
  intros Hlive Hq. destruct (forallb_quiet ops Hq) as [Hnc _].
  pose proof (aenter_live accepts l w Hlive) as Henter.
  assert (Hlive1 : live l (snd (record CallGetSession w))) by exact Hlive.
  destruct (run_non_closing accepts l ops _ Hlive1 Hnc) as (_ & Hlive2 & _).
  destruct Hlive2 as (Hl2 & s & Hs2 & Hc2).
  pose proof (close_live l s _ Hl2 Hs2 Hc2) as Hclose.
  eexists; exists (close_session s). unfold async_with. rewrite Henter.
  unfold ops_body at 1. unfold __aexit__. rewrite Hclose.
  split; [reflexivity|]. simpl.
  split; [apply list_lookup_insert_eq; eapply lookup_lt_Some; exact Hs2|].
  split; [reflexivity|exact Hl2].
Qed.

Lemma get_session_raise_idle (w w1 : World) (e : Exc) :
  get_session accepts w = (Raise e, w1) -> phase w1 <> Some Active.
Proof.
  unfold phase. unfold_m.
  case_session w; rewrite ?Hl, ?Hc; try destruct (accepts kw); simpl;
    intros Hget; inversion Hget; subst; simpl; rewrite ?Hl; simpl;
    rewrite ?Hc; discriminate.
Qed.

Lemma get_session_active (w : World) :
  phase (snd (get_session accepts w)) = Some Active ->
  exists l, get_session accepts w = (Ok (Some l), snd (get_session accepts w)) /\
            live l (snd (get_session accepts w)).
Proof.
  intros Hact. pose proof Hact as Hact'.
  apply phase_active_live in Hact as [l Hlive]. exists l.
  split; [|exact Hlive].
  destruct (get_session accepts w) as [r w1] eqn:Hget. simpl in *.
  destruct r as [r|e].
  - destruct (get_session_ok accepts w w1 r Hget) as (l' & -> & Hcur & _).
    destruct Hlive as [Hl _]. congruence.
  - exfalso. exact (get_session_raise_idle w w1 e Hget Hact').
Qed.

(** X11. Scopes on one holder do not nest.  When the outer scope has been
    entered on an open session, a scope entered inside it receives the same
    session, and when it ends it closes that session although the outer
    scope is still running: read right after the inner scope, the outer
    scope's session is closed.  The outer exit then finds nothing to
    close. *)
Theorem nested_scope_closes_outer_session (ops : list Op) (w : World) :
  phase (snd (__aenter__ accepts w)) = Some Active ->
  forallb quiet ops = true ->
  exists l,
    fst (nested_scopes accepts ops w) = Ok (Some l, Some l, true) /\
    _session (holder (snd (nested_scopes accepts ops w))) = Some l /\
    phase (snd (nested_scopes accepts ops w)) = Some Closed.
Proof.
  intros Hact Hq. rewrite aenter_is_get_session in Hact.
  destruct (get_session_active w Hact) as (l & Hget & Hlive).
  destruct (scope_on_live ops _ l Hlive Hq) as (w3 & s & Hrun & Hs3 & Hc3 & Hl3).
  assert (Hph : phase w3 = Some Closed).
  { unfold phase. rewrite Hl3, Hs3, Hc3. reflexivity. }
  assert (Heq : nested_scopes accepts ops w =
                (Ok (Some l, Some l, true), snd (record CallClose w3))).
  { unfold nested_scopes. unfold async_with at 1.
    rewrite aenter_is_get_session, Hget.
    unfold bind at 1. rewrite Hrun.
    unfold bind, get_closed, ret. rewrite Hs3, Hc3. simpl.
    unfold __aexit__. rewrite close_idle
      by (rewrite working_order_phase, Hph; reflexivity).
    reflexivity. }
  exists l. rewrite Heq. simpl. split; [reflexivity|]. split; [exact Hl3|exact Hph].
Qed.

(** X12. Scopes that follow each other never share a session.  Two scopes
    in a row on one holder, each with a quiet body, both end normally; the
    second works on a session allocated for it, different from the first
    scope's, and at the end both sessions are closed. *)
Theorem consecutive_scopes_distinct (ops1 ops2 : list Op) (w : World) :
  wf w ->
  accepts (_session_kwargs (holder w)) = true ->
  forallb quiet ops1 = true ->
  forallb quiet ops2 = true ->
  exists l1 l2 s1 s2,
    fst (two_scopes accepts ops1 ops2 w) = Ok (Some l1, Some l2) /\
    l1 <> l2 /\
    heap (snd (two_scopes accepts ops1 ops2 w)) !! l1 = Some s1 /\
    closed (snd (two_scopes accepts ops1 ops2 w)) s1 = true /\
    heap (snd (two_scopes accepts ops1 ops2 w)) !! l2 = Some s2 /\
    closed (snd (two_scopes accepts ops1 ops2 w)) s2 = true.
Proof.
  intros Hwf Hacc Hq1 Hq2.
  destruct (scope_quiet ops1 w Hwf Hacc Hq1)
    as (l1 & w3 & s1 & Hrun1 & Hs1 & Hc1 & Hwf3 & Hph3 & Hk3 & _ & _).
  assert (Hacc3 : accepts (_session_kwargs (holder w3)) = true) by congruence.
  destruct (scope_quiet ops2 w3 Hwf3 Hacc3 Hq2)
    as (l2 & w6 & s2 & Hrun2 & Hs2 & Hc2 & _ & _ & _ & Hfresh & Hpers).
  assert (Hl2 : l2 = length (heap w3)) by (apply Hfresh; exact Hph3).
  assert (Hlt1 : l1 < length (heap w3)) by (eapply lookup_lt_Some; exact Hs1).
  destruct (Hpers l1 s1 Hs1 Hc1) as [Hs1' Hc1'].
  exists l1, l2, s1, s2.
  unfold two_scopes, bind. rewrite Hrun1, Hrun2. unfold ret. simpl.
  split; [reflexivity|]. split; [lia|]. auto.
Qed.

(** ** A connector of the caller's *)

Lemma run_get_session_spent (n : nat) (w : World) (c : nat) :
  wf w ->
  phase w = Some Closed ->
  connector_arg (_session_kwargs (holder w)) = GivenConnector c ->
  c ∈ closed_connectors w ->
  accepts (_session_kwargs (holder w)) = true ->
  sessions_of (fst (run accepts (replicate n OpGetSession) w)) =
    (fun i => Ok (Some (length (heap w) + i))) <$> seq 0 n /\
  phase (snd (run accepts (replicate n OpGetSession) w)) = Some Closed /\
  length (heap (snd (run accepts (replicate n OpGetSession) w))) = length (heap w) + n.
Proof.
  revert w. induction n as [|n IH]; intros w Hwf Hph Hcon Hin Hacc; simpl.
  - split; [reflexivity|]. split; [exact Hph|]. lia.
  - assert (Hidle : phase w <> Some Active) by congruence.
    pose proof (get_session_idle w Hwf Hidle) as Hg. rewrite Hacc in Hg.
    rewrite Hg.
    match type of Hg with
    | _ = (_, ?w1) =>
        assert (Hph1 : phase w1 = Some Closed);
        [ unfold phase, closed, session_closed; simpl;
          rewrite list_lookup_middle by reflexivity; simpl; rewrite Hcon; simpl;
          rewrite bool_decide_eq_true_2 by exact Hin; reflexivity
        | destruct (IH w1 (phase_wf _ _ Hph1) Hph1 Hcon Hin Hacc) as (IH1 & IH2 & IH3);
          destruct (run accepts (replicate n OpGetSession) w1) as [rs w2] ]
    end.
    simpl in *. rewrite length_app in IH1, IH3. simpl in IH1, IH3.
    split; [|split; [exact IH2|lia]].
    rewrite IH1, Nat.add_0_r. f_equal. rewrite <- fmap_S_seq, <- list_fmap_compose.
    apply list_fmap_ext. intros i x _. simpl. do 2 f_equal. lia.
Qed.

(** X13. A holder given a connector of the caller's works once.  Its
    [close] closes that connector, which the session owns; from then on
    every [get_session] builds a session on the closed connector: each call
    returns a new session, at the next address, that is closed from the
    start, and the holder is never Active again. *)
Theorem spent_connector_never_recovers (n : nat) (w : World)
    (l : loc) (s : ClientSession) (c : nat) :
  _session (holder w) = Some l ->
  heap w !! l = Some s ->
  closed w s = false ->
  _connector s = Some (GivenConnector c) ->
  _connector_owner s = true ->
  connector_arg (_session_kwargs (holder w)) = GivenConnector c ->
  accepts (_session_kwargs (holder w)) = true ->
  c ∈ closed_connectors (snd (close w)) /\
  sessions_of (fst (run accepts (replicate n OpGetSession) (snd (close w)))) =
    (fun i => Ok (Some (length (heap w) + i))) <$> seq 0 n /\
  phase (snd (run accepts (replicate n OpGetSession) (snd (close w)))) = Some Closed.
Proof.
  intros Hl Hs Hc Hcon Hown Harg Hacc.
  assert (Hlt : l < length (heap w)) by (eapply lookup_lt_Some; eassumption).
  rewrite (close_live l s w Hl Hs Hc). simpl.
  assert (Hin : c ∈ connectors_after_close (closed_connectors w) s).
  { unfold connectors_after_close. rewrite Hcon, Hown. apply elem_of_cons. auto. }
  split; [exact Hin|].
  match goal with
  | |- context [run accepts _ ?w0] =>
      assert (Hph : phase w0 = Some Closed)
        by (unfold phase; simpl; rewrite Hl;
            rewrite list_lookup_insert_eq by exact Hlt; reflexivity);
      destruct (run_get_session_spent n w0 c (phase_wf _ _ Hph) Hph Harg Hin Hacc)
        as (H1 & H2 & _)
  end.
  simpl in H1. rewrite length_insert in H1. split; [exact H1|exact H2].
Qed.

End Composition.

(** * The further properties at concrete inputs *)

Lemma open_session_is_current_witness :
  no_stray_open (new_world ∅) /\
  heap (snd (run accept_all busy_ops (new_world ∅))) !! 2 =
    Some (session_of (timeout_5 ∪ ∅)) /\
  closed (snd (run accept_all busy_ops (new_world ∅)))
    (session_of (timeout_5 ∪ ∅)) = false /\
  _session (holder (snd (run accept_all busy_ops (new_world ∅)))) = Some 2.
Proof.
  split; [exact (new_world_no_stray ∅)|]. split; [reflexivity|].
  split; [reflexivity|].
  exact (proj1 (open_session_is_current accept_all busy_ops (new_world ∅) 2
                  (session_of (timeout_5 ∪ ∅))
                  (new_world_no_stray ∅) eq_refl eq_refl)).
Defined.

Lemma close_releases_everything_witness :
  no_stray_open (new_world ∅) /\
  wf (new_world ∅) /\
  fst (close (snd (run accept_all busy_ops (new_world ∅)))) = Ok tt /\
  forall l s,
    heap (snd (close (snd (run accept_all busy_ops (new_world ∅))))) !! l = Some s ->
    closed (snd (close (snd (run accept_all busy_ops (new_world ∅))))) s = true.
Proof.
  split; [exact (new_world_no_stray ∅)|]. split; [exact I|].
  exact (close_releases_everything accept_all busy_ops (new_world ∅)
           (new_world_no_stray ∅) I).
Defined.

Lemma allocations_bounded_witness :
  connector_arg (_session_kwargs (holder (new_world ∅))) = OwnConnector /\
  forallb (fun o => negb (brings_connector o)) busy_ops = true /\
  closures busy_ops = 2 /\
  length (heap (snd (run accept_all busy_ops (new_world ∅)))) <= 0 + 2 + 1 /\
  phase active_world = Some Active /\
  length (heap (snd (run accept_all busy_ops active_world))) <= 1 + 2.
Proof.
  assert (Hq : forallb (fun o => negb (brings_connector o)) busy_ops = true)
    by reflexivity.
  split; [reflexivity|]. split; [exact Hq|]. split; [reflexivity|].
  destruct (allocations_bounded accept_all busy_ops (new_world ∅)) as (_ & Hall).
  split; [exact (proj1 (Hall eq_refl Hq))|]. split; [reflexivity|].
  destruct (allocations_bounded accept_all busy_ops active_world) as (_ & Hact).
  exact (proj2 (Hact eq_refl Hq) eq_refl).
Defined.

Lemma sessions_persist_witness :
  heap two_closed_world !! 1 = Some (close_session (session_of timeout_5)) /\
  closed two_closed_world (close_session (session_of timeout_5)) = true /\
  exists s',
    heap (snd (run accept_all busy_ops two_closed_world)) !! 1 = Some s' /\
    s' = close_session (session_of timeout_5) /\
    closed (snd (run accept_all busy_ops two_closed_world)) s' = true.
Proof.
  split; [reflexivity|]. split; [reflexivity|].
  destruct (sessions_persist accept_all busy_ops two_closed_world 1
              (close_session (session_of timeout_5)) eq_refl)
    as (s' & Hl & _ & Hsame).
  exists s'. split; [exact Hl|]. exact (Hsame eq_refl).
Defined.

Lemma other_sessions_untouched_witness :
  is_external OpClose = false /\
  _session (holder shared_connector_world) <> Some 0 /\
  heap shared_connector_world !! 0 = Some (session_of connector_7) /\
  closed shared_connector_world (session_of connector_7) = false /\
  heap (snd (step accept_all OpClose shared_connector_world)) !! 0 =
    Some (session_of connector_7) /\
  closed (snd (step accept_all OpClose shared_connector_world))
    (session_of connector_7) = true /\
  heap (snd (step accept_all OpClose shared_store_world)) !! 0 =
    Some (session_of ∅) /\
  closed (snd (step accept_all OpClose shared_store_world)) (session_of ∅) = false.
Proof.
  assert (Hne : _session (holder shared_connector_world) <> Some 0).
  { intros H. discriminate H. }
  assert (Hne' : _session (holder shared_store_world) <> Some 0).
  { intros H. discriminate H. }
  split; [reflexivity|]. split; [exact Hne|]. split; [reflexivity|].
  split; [reflexivity|].
  split; [exact (proj1 (other_sessions_untouched accept_all OpClose
                          shared_connector_world 0 (session_of connector_7)
                          eq_refl Hne eq_refl))|].
  split; [reflexivity|].
  split; [exact (proj1 (other_sessions_untouched accept_all OpClose
                          shared_store_world 0 (session_of ∅)
                          eq_refl Hne' eq_refl))|].
  reflexivity.
Defined.

Lemma config_only_grows_witness :
  forallb (fun o => negb (is_update o)) no_update_ops = true /\
  _session_kwargs (holder (snd (run accept_all no_update_ops (new_world timeout_5)))) =
    timeout_5 /\
  is_Some (_session_kwargs (holder (new_world timeout_5)) !! "timeout") /\
  is_Some (_session_kwargs (holder (snd (run accept_all busy_ops (new_world timeout_5))))
             !! "timeout").
Proof.
  assert (Hk : is_Some (_session_kwargs (holder (new_world timeout_5)) !! "timeout")).
  { exists (VInt 5). reflexivity. }
  split; [reflexivity|].
  split; [exact (proj1 (config_only_grows accept_all no_update_ops
                          (new_world timeout_5)) eq_refl)|].
  split; [exact Hk|].
  exact (proj2 (config_only_grows accept_all busy_ops (new_world timeout_5))
           "timeout" Hk).
Defined.

Lemma phase_new_world_idle (kwargs : Kwargs) : phase (new_world kwargs) <> Some Active.
Proof. intros H. discriminate H. Defined.

Lemma get_session_fails_iff_witness :
  wf (new_world bogus_kwargs) /\
  phase (new_world bogus_kwargs) <> Some Active /\
  reject_bogus (_session_kwargs (holder (new_world bogus_kwargs))) = false /\
  fst (get_session reject_bogus (new_world bogus_kwargs)) = Raise AllocationError /\
  same_store (new_world bogus_kwargs)
    (snd (get_session reject_bogus (new_world bogus_kwargs))).
Proof.
  split; [exact I|]. split; [exact (phase_new_world_idle bogus_kwargs)|].
  split; [reflexivity|].
  destruct (get_session_fails_iff reject_bogus (new_world bogus_kwargs) I)
    as (Hiff & Honly).
  assert (Hraise : fst (get_session reject_bogus (new_world bogus_kwargs)) =
                   Raise AllocationError).
  { apply Hiff. split; [exact (phase_new_world_idle bogus_kwargs)|reflexivity]. }
  split; [exact Hraise|]. exact (proj2 (Honly AllocationError Hraise)).
Defined.

Lemma misconfiguration_is_latent_witness :
  live 0 active_world /\
  reject_bogus (bogus_kwargs ∪ _session_kwargs (holder active_world)) = false /\
  fst (get_session reject_bogus (snd (update_session_kwargs bogus_kwargs active_world))) =
    Ok (Some 0) /\
  Forall (fun x => x = Raise AllocationError)
    (sessions_of (fst (run reject_bogus (replicate 3 OpGetSession)
                         (snd (close (snd (update_session_kwargs bogus_kwargs
                                             active_world))))))).
Proof.
  split; [exact live_active_world|]. split; [reflexivity|].
  destruct (misconfiguration_is_latent reject_bogus bogus_kwargs active_world 0 3
              live_active_world eq_refl) as (_ & Hget & _ & Hall & _).
  split; [exact Hget|exact Hall].
Defined.

Lemma failed_get_session_recovers_witness :
  wf (new_world ∅) /\
  phase (new_world ∅) <> Some Active /\
  needs_timeout (_session_kwargs (holder (new_world ∅))) = false /\
  needs_timeout (timeout_5 ∪ _session_kwargs (holder (new_world ∅))) = true /\
  connector_arg (timeout_5 ∪ _session_kwargs (holder (new_world ∅))) = OwnConnector /\
  fst (get_session needs_timeout (new_world ∅)) = Raise AllocationError /\
  fst (get_session needs_timeout
         (snd (update_session_kwargs timeout_5
                 (snd (get_session needs_timeout (new_world ∅)))))) = Ok (Some 0) /\
  phase (snd (get_session needs_timeout
                (snd (update_session_kwargs timeout_5
                        (snd (get_session needs_timeout (new_world ∅))))))) =
    Some Active.
Proof.
  assert (Hrej : needs_timeout (_session_kwargs (holder (new_world ∅))) = false)
    by reflexivity.
  assert (Hacc : needs_timeout
                   (timeout_5 ∪ _session_kwargs (holder (new_world ∅))) = true)
    by reflexivity.
  assert (Hown : connector_arg
                   (timeout_5 ∪ _session_kwargs (holder (new_world ∅))) = OwnConnector)
    by reflexivity.
  split; [exact I|]. split; [exact (phase_new_world_idle ∅)|].
  split; [exact Hrej|]. split; [exact Hacc|]. split; [exact Hown|].
  destruct (failed_get_session_recovers needs_timeout timeout_5 (new_world ∅) I
              (phase_new_world_idle ∅) Hrej Hacc) as (Hfail & Hok & _ & _ & Hact).
  split; [exact Hfail|]. split; [exact Hok|exact (Hact Hown)].
Defined.

Lemma nested_scope_closes_outer_session_witness :
  phase (snd (__aenter__ accept_all (new_world ∅))) = Some Active /\
  forallb quiet scope_ops = true /\
  exists l,
    fst (nested_scopes accept_all scope_ops (new_world ∅)) = Ok (Some l, Some l, true) /\
    _session (holder (snd (nested_scopes accept_all scope_ops (new_world ∅)))) = Some l /\
    phase (snd (nested_scopes accept_all scope_ops (new_world ∅))) = Some Closed.
Proof.
  split; [reflexivity|]. split; [reflexivity|].
  exact (nested_scope_closes_outer_session accept_all scope_ops (new_world ∅)
           eq_refl eq_refl).
Defined.

Lemma consecutive_scopes_distinct_witness :
  wf (new_world ∅) /\
  accept_all (_session_kwargs (holder (new_world ∅))) = true /\
  forallb quiet scope_ops = true /\
  exists l1 l2 s1 s2,
    fst (two_scopes accept_all scope_ops scope_ops (new_world ∅)) =
      Ok (Some l1, Some l2) /\
    l1 <> l2 /\
    heap (snd (two_scopes accept_all scope_ops scope_ops (new_world ∅))) !! l1 = Some s1 /\
    closed (snd (two_scopes accept_all scope_ops scope_ops (new_world ∅))) s1 = true /\
    heap (snd (two_scopes accept_all scope_ops scope_ops (new_world ∅))) !! l2 = Some s2 /\
    closed (snd (two_scopes accept_all scope_ops scope_ops (new_world ∅))) s2 = true.
Proof.
  split; [exact I|]. split; [reflexivity|]. split; [reflexivity|].
  exact (consecutive_scopes_distinct accept_all scope_ops scope_ops (new_world ∅)
           I eq_refl eq_refl eq_refl).
Defined.

Lemma spent_connector_never_recovers_witness :
  _session (holder connector_got) = Some 0 /\
  heap connector_got !! 0 = Some (session_of connector_7) /\
  closed connector_got (session_of connector_7) = false /\
  _connector (session_of connector_7) = Some (GivenConnector 7) /\
  _connector_owner (session_of connector_7) = true /\
  connector_arg (_session_kwargs (holder connector_got)) = GivenConnector 7 /\
  accept_all (_session_kwargs (holder connector_got)) = true /\
  sessions_of (fst (run accept_all (replicate 3 OpGetSession) (snd (close connector_got)))) =
    [Ok (Some 1); Ok (Some 2); Ok (Some 3)] /\
  phase (snd (run accept_all (replicate 3 OpGetSession) (snd (close connector_got)))) =
    Some Closed.
Proof.
  split; [reflexivity|]. split; [reflexivity|]. split; [reflexivity|].
  split; [reflexivity|]. split; [reflexivity|]. split; [reflexivity|].
  split; [reflexivity|].
  destruct (spent_connector_never_recovers accept_all 3 connector_got 0
              (session_of connector_7) 7 eq_refl eq_refl eq_refl eq_refl eq_refl
              eq_refl eq_refl) as (_ & Hall & Hph).
  split; [exact Hall|exact Hph].
Defined.

(** The two scopes at work: sessions 0 and 1, both closed at the end; and
    the scope inside a scope: one session, closed under the outer scope. *)
Example scopes_at_work :
  fst (two_scopes accept_all scope_ops scope_ops (new_world ∅)) = Ok (Some 0, Some 1) /\
  (closed (snd (two_scopes accept_all scope_ops scope_ops (new_world ∅))) <$>
     heap (snd (two_scopes accept_all scope_ops scope_ops (new_world ∅)))) =
    [true; true] /\
  fst (nested_scopes accept_all scope_ops (new_world ∅)) = Ok (Some 0, Some 0, true).
Proof. vm_compute. auto. Qed.

(** On the caller's connector, with the default ownership: the second
    scope gets a session that is closed from the start; when the sessions
    do not own the connector, the holder goes on working after a close. *)
Example connector_at_work :
  fst (two_scopes accept_all [] [] (new_world connector_7)) = Ok (Some 0, Some 1) /\
  (let w := snd (run accept_all [OpGetSession; OpClose; OpGetSession]
                   (new_world connector_7)) in
   phase w = Some Closed) /\
  (let w := snd (run accept_all [OpGetSession; OpClose; OpGetSession]
                   (new_world (<["connector_owner" := VBool false]> connector_7))) in
   phase w = Some Active).
Proof. vm_compute. auto. Qed.
